(** * Client-side enhancements of the inventory pages

    A shallow embedding of [enhanced-validation.js] and
    [enhanced-validation-part2.js]: the password-strength heuristic, the
    batch-selection tracker, the batch-action menu and the submission
    adapter, followed by the properties proved about them. *)

From Stdlib Require Import ZArith NArith Lia Ascii.
From stdpp Require Import base list strings pretty.

Local Open Scope Z_scope.

(** ** JavaScript strings and regular expressions *)

(** A JavaScript string is a sequence of UTF-16 code units; [length],
    character classes and [.] all work on code units (none of the
    regular expressions of the source carries the [u] or [s] flag). *)
Definition code_unit := N.
Definition jsstring := list code_unit.

Definition code_of_ascii (a : ascii) : code_unit := N_of_ascii a.

Fixpoint js (s : string) : jsstring :=
  match s with
  | EmptyString => []
  | String a s' => code_of_ascii a :: js s'
  end.

Module Regex.

(** The atoms that occur in the source: bracket classes such as [[a-z]]
    and [[^a-zA-Z0-9]], the escape [\d] and the wildcard [.]. *)
Inductive atom :=
| Class (negated : bool) (ranges : list (ascii * ascii))
| Digit
| Dot.

Inductive regex :=
| Void
| Eps
| Atom (a : atom)
| Cat (r1 r2 : regex)
| Alt (r1 r2 : regex)
| Star (r : regex).

Definition in_range (c : code_unit) (r : ascii * ascii) : bool :=
  ((code_of_ascii r.1 <=? c) && (c <=? code_of_ascii r.2))%N.

(** Line terminators, which [.] does not match: LF, CR, U+2028, U+2029. *)
Definition line_terminator (c : code_unit) : bool :=
  ((c =? 10) || (c =? 13) || (c =? 8232) || (c =? 8233))%N.

Definition atom_matches (a : atom) (c : code_unit) : bool :=
  match a with
  | Class negated ranges => xorb negated (existsb (in_range c) ranges)
  | Digit => in_range c ("0", "9")%char
  | Dot => negb (line_terminator c)
  end.

Fixpoint nullable (r : regex) : bool :=
  match r with
  | Void => false
  | Eps => true
  | Atom _ => false
  | Cat r1 r2 => nullable r1 && nullable r2
  | Alt r1 r2 => nullable r1 || nullable r2
  | Star _ => true
  end.

(** Brzozowski derivative of [r] by the code unit [c]. *)
Fixpoint deriv (c : code_unit) (r : regex) : regex :=
  match r with
  | Void => Void
  | Eps => Void
  | Atom a => if atom_matches a c then Eps else Void
  | Cat r1 r2 =>
      if nullable r1 then Alt (Cat (deriv c r1) r2) (deriv c r2)
      else Cat (deriv c r1) r2
  | Alt r1 r2 => Alt (deriv c r1) (deriv c r2)
  | Star r1 => Cat (deriv c r1) (Star r1)
  end.

(** Does some prefix of [s] match [r]? *)
Fixpoint match_here (r : regex) (s : jsstring) : bool :=
  nullable r ||
  match s with
  | [] => false
  | c :: s' => match_here (deriv c r) s'
  end.

(** [RegExp.prototype.test] without flags: is there a match starting at
    some position of [s]? *)
Fixpoint test (r : regex) (s : jsstring) : bool :=
  match_here r s ||
  match s with
  | [] => false
  | _ :: s' => test r s'
  end.

(** The language of a regular expression, for reference. *)
Inductive Matches : regex -> jsstring -> Prop :=
| MEps : Matches Eps []
| MAtom a c : atom_matches a c = true -> Matches (Atom a) [c]
| MCat r1 r2 s1 s2 :
    Matches r1 s1 -> Matches r2 s2 -> Matches (Cat r1 r2) (s1 ++ s2)
| MAltL r1 r2 s : Matches r1 s -> Matches (Alt r1 r2) s
| MAltR r1 r2 s : Matches r2 s -> Matches (Alt r1 r2) s
| MStarNil r : Matches (Star r) []
| MStarCons r c s1 s2 :
    Matches r (c :: s1) -> Matches (Star r) s2 ->
    Matches (Star r) (c :: s1 ++ s2).

(** The character classes of the source. *)
Definition lower : atom := Class false [("a", "z")%char].
Definition upper : atom := Class false [("A", "Z")%char].
Definition letter : atom := Class false [("a", "z"); ("A", "Z")]%char.
Definition alnum : atom :=
  Class false [("a", "z"); ("A", "Z"); ("0", "9")]%char.
Definition non_alnum : atom :=
  Class true [("a", "z"); ("A", "Z"); ("0", "9")]%char.

(** [x.*y] *)
Definition then_later (x y : atom) : regex :=
  Cat (Atom x) (Cat (Star (Atom Dot)) (Atom y)).

End Regex.

(** ** Password strength (enhanced-validation-part2.js) *)

Import Regex.

(** [/[a-z]/], [/[A-Z]/], [/\d/], [/[^a-zA-Z0-9]/]. *)
Definition re_lower : regex := Atom lower.
Definition re_upper : regex := Atom upper.
Definition re_digit : regex := Atom Digit.
Definition re_special : regex := Atom non_alnum.
(** [/[a-z].*[A-Z]|[A-Z].*[a-z]/] *)
Definition re_mixed_case : regex :=
  Alt (then_later lower upper) (then_later upper lower).
(** [/\d.*[a-zA-Z]|[a-zA-Z].*\d/] *)
Definition re_digit_letter : regex :=
  Alt (then_later Digit letter) (then_later letter Digit).
(** [/[^a-zA-Z0-9].*[a-zA-Z0-9]|[a-zA-Z0-9].*[^a-zA-Z0-9]/] *)
Definition re_special_alnum : regex :=
  Alt (then_later non_alnum alnum) (then_later alnum non_alnum).

(** [if (cond) score += k;] *)
Definition bump (cond : bool) (k : Z) (score : Z) : Z :=
  if cond then score + k else score.

Definition checkPasswordStrength (password : jsstring) : Z :=
  let len := Z.of_nat (length password) in
  let score := 0 in
  (* Base length score *)
  let score := bump (8 <=? len) 25 score in
  let score := bump (12 <=? len) 15 score in
  (* Character diversity score *)
  let score := bump (test re_lower password) 10 score in
  let score := bump (test re_upper password) 10 score in
  let score := bump (test re_digit password) 10 score in
  let score := bump (test re_special password) 15 score in
  (* Complexity score *)
  let score := bump (test re_mixed_case password) 5 score in
  let score := bump (test re_digit_letter password) 5 score in
  let score := bump (test re_special_alnum password) 5 score in
  Z.min score 100.

(** [element.classList]: a list of class names without duplicates. *)
Definition classList := list string.

Definition classList_add (c : string) (l : classList) : classList :=
  if decide (c ∈ l) then l else l ++ [c].

Definition classList_remove (c : string) (l : classList) : classList :=
  filter (λ x, x ≠ c) l.

Definition classList_contains (c : string) (l : classList) : bool :=
  bool_decide (c ∈ l).

(** The strength meter that [enhancePasswordFields] puts after a password
    field: the container, the progress-bar indicator inside it and the
    text below. *)
Record StrengthMeter := {
  container_classes : classList;   (* strengthContainer.classList *)
  indicator_width : string;        (* strengthIndicator.style.width *)
  indicator_valuenow : string;     (* aria-valuenow *)
  indicator_className : string;
  text_content : string;           (* strengthText.textContent *)
  text_className : string
}.

(** The meter as created, before any input. *)
Definition new_meter : StrengthMeter :=
  {| container_classes := ["password-strength-meter"; "mt-2"; "d-none"];
     indicator_width := "0%";
     indicator_valuenow := "0";
     indicator_className := "progress-bar";
     text_content := "";
     text_className := "text-muted" |}.

Definition updatePasswordStrengthIndicator
    (m : StrengthMeter) (strength : Z) : StrengthMeter :=
  let width := pretty strength +:+ "%" in
  let now := pretty strength in
  if strength <? 30 then
    {| container_classes := container_classes m;
       indicator_width := width; indicator_valuenow := now;
       indicator_className := "progress-bar bg-danger";
       text_content := "Very Weak"; text_className := "text-danger" |}
  else if strength <? 60 then
    {| container_classes := container_classes m;
       indicator_width := width; indicator_valuenow := now;
       indicator_className := "progress-bar bg-warning";
       text_content := "Weak"; text_className := "text-warning" |}
  else if strength <? 80 then
    {| container_classes := container_classes m;
       indicator_width := width; indicator_valuenow := now;
       indicator_className := "progress-bar bg-info";
       text_content := "Fair"; text_className := "text-info" |}
  else
    {| container_classes := container_classes m;
       indicator_width := width; indicator_valuenow := now;
       indicator_className := "progress-bar bg-success";
       text_content := "Strong"; text_className := "text-success" |}.

Definition set_container_classes (l : classList) (m : StrengthMeter) :=
  {| container_classes := l;
     indicator_width := indicator_width m;
     indicator_valuenow := indicator_valuenow m;
     indicator_className := indicator_className m;
     text_content := text_content m;
     text_className := text_className m |}.

(** A string is truthy when it is not empty. *)
Definition truthy {A} (s : list A) : bool :=
  match s with [] => false | _ => true end.

(** The [input] listener of a password field; [value] is [this.value]. *)
Definition onPasswordInput (value : jsstring) (m : StrengthMeter)
    : StrengthMeter :=
  if truthy value then
    let m := set_container_classes
               (classList_remove "d-none" (container_classes m)) m in
    updatePasswordStrengthIndicator m (checkPasswordStrength value)
  else
    set_container_classes (classList_add "d-none" (container_classes m)) m.

(** ** The page (enhanced-validation.js)

    The part of the document that the batch subsystem reads and writes:
    the tables matching [.table], the action containers matching
    [.card-body .d-flex.flex-wrap.gap-2], the anti-forgery token input and
    [window.location.pathname].  Tables are not nested; the only
    [.select-row] elements are checkboxes inside cells of [tbody] rows, and
    the only [.batch-actions] elements are those inside action containers,
    each with its [.selected-count] badge (as the script builds them). *)

(** [listeners] counts the [change] listeners that [setupBatchSelection]
    has attached to the element. *)
Record Checkbox := {
  checked : bool;
  indeterminate : bool;
  listeners : nat
}.

(** Header cells of a [thead] row. *)
Inductive HCell :=
| SelectAllTh (cb : Checkbox)   (* th.select-column > input.select-all *)
| MarkerTh                      (* any other th.select-column *)
| PlainTh (label : string).

Inductive Cell :=
| SelectCell (cb : Checkbox)    (* a cell holding an input.select-row *)
| DataCell (content : string).

Record Row := {
  data_id : option string;      (* the data-id attribute of the tr *)
  cells : list Cell
}.

Record Table := {
  thead : list (list HCell);    (* the tr elements under thead *)
  tbody : list Row              (* the tr elements under tbody *)
}.

(** One entry of the [actions] array. *)
Record Action := {
  action_text : string;
  action_icon : string;
  action_key : string;
  action_class : option string
}.

(** The anchor built for an entry of the menu. *)
Record MenuItem := {
  item_className : string;
  item_href : string;
  item_data_action : string;
  item_icon : string;           (* innerHTML: the icon, then the text *)
  item_text : string
}.

(** A [div.batch-actions]: its class list, the text of its
    [.selected-count] badge and its dropdown menu. *)
Record BatchActions := {
  ba_classes : classList;
  selected_count : string;
  ba_menu : list MenuItem
}.

(** An action container, with the [.batch-actions] elements inside it. *)
Record Container := {
  batch : list BatchActions
}.

Record Page := {
  pathname : string;            (* window.location.pathname *)
  csrf_token : option string;   (* value of [name=csrfmiddlewaretoken] *)
  tables : list Table;
  containers : list Container
}.

Definition set_tables (ts : list Table) (p : Page) : Page :=
  {| pathname := pathname p; csrf_token := csrf_token p;
     tables := ts; containers := containers p |}.

Definition set_containers (cs : list Container) (p : Page) : Page :=
  {| pathname := pathname p; csrf_token := csrf_token p;
     tables := tables p; containers := cs |}.

(** *** Queries *)

Definition is_select_column (h : HCell) : bool :=
  match h with
  | SelectAllTh _ | MarkerTh => true
  | PlainTh _ => false
  end.

(** [table.querySelector('thead th.select-column')] is not null. *)
Definition hasCheckboxColumn (t : Table) : bool :=
  existsb (existsb is_select_column) (thead t).

(** The [.select-row] checkboxes of a row, of a table, of the document. *)
Definition row_checkboxes (r : Row) : list Checkbox :=
  omap (λ c, match c with SelectCell cb => Some cb | DataCell _ => None end)
       (cells r).

Definition select_rows (t : Table) : list Checkbox :=
  tbody t ≫= row_checkboxes.

Definition select_rows_checked (t : Table) : list Checkbox :=
  filter (λ cb, checked cb = true) (select_rows t).

Definition document_select_rows_checked (p : Page) : list Checkbox :=
  tables p ≫= select_rows_checked.

(** *** Updates of checkboxes in place *)

Definition set_checked (b : bool) (cb : Checkbox) : Checkbox :=
  {| checked := b; indeterminate := indeterminate cb;
     listeners := listeners cb |}.

Definition set_indeterminate (b : bool) (cb : Checkbox) : Checkbox :=
  {| checked := checked cb; indeterminate := b; listeners := listeners cb |}.

Definition addEventListener (cb : Checkbox) : Checkbox :=
  {| checked := checked cb; indeterminate := indeterminate cb;
     listeners := S (listeners cb) |}.

Definition map_cell (f : Checkbox → Checkbox) (c : Cell) : Cell :=
  match c with
  | SelectCell cb => SelectCell (f cb)
  | DataCell s => DataCell s
  end.

Definition map_row (f : Checkbox → Checkbox) (r : Row) : Row :=
  {| data_id := data_id r; cells := map_cell f <$> cells r |}.

(** [table.querySelectorAll('.select-row').forEach(f)] *)
Definition forEach_select_row (f : Checkbox → Checkbox) (t : Table) : Table :=
  {| thead := thead t; tbody := map_row f <$> tbody t |}.

(** The checkbox that the closures of an augmented table hold as
    [selectAllCheckbox]: augmentation inserts its [th] before
    [headerRow.firstChild], and nothing moves or removes header cells
    afterwards, so it is the first cell of the first [thead] row. *)
Definition selectAllCheckbox (t : Table) : option Checkbox :=
  match thead t with
  | (SelectAllTh cb :: _) :: _ => Some cb
  | _ => None
  end.

Definition update_selectAll (f : Checkbox → Checkbox) (t : Table) : Table :=
  match thead t with
  | (SelectAllTh cb :: ths) :: trs =>
      {| thead := (SelectAllTh (f cb) :: ths) :: trs; tbody := tbody t |}
  | _ => t
  end.

(** *** Selection Tracker *)

(** [document.createElement('input')] with [type = 'checkbox']. *)
Definition new_checkbox : Checkbox :=
  {| checked := false; indeterminate := false; listeners := 0 |}.

Definition insert_select_cell (r : Row) : Row :=
  {| data_id := data_id r; cells := SelectCell new_checkbox :: cells r |}.

(** The body of [tables.forEach] in [setupBatchSelection]. *)
Definition augment (t : Table) : Table :=
  if hasCheckboxColumn t then t
  else
    match thead t with
    | [] => t                                   (* no thead tr *)
    | headerRow :: trs =>
        let selectAll := new_checkbox in
        let t := {| thead := (SelectAllTh selectAll :: headerRow) :: trs;
                    tbody := insert_select_cell <$> tbody t |} in
        let t := update_selectAll addEventListener t in
        forEach_select_row addEventListener t
    end.

Definition setupBatchSelection (p : Page) : Page :=
  set_tables (augment <$> tables p) p.

(** *** Action Menu Builder *)

Definition set_ba_classes (l : classList) (b : BatchActions) : BatchActions :=
  {| ba_classes := l; selected_count := selected_count b;
     ba_menu := ba_menu b |}.

Definition set_selected_count (s : string) (b : BatchActions) : BatchActions :=
  {| ba_classes := ba_classes b; selected_count := s; ba_menu := ba_menu b |}.

Definition forEach_batch_actions (f : BatchActions → BatchActions)
    (p : Page) : Page :=
  set_containers
    ((λ c, {| batch := f <$> batch c |}) <$> containers p) p.

(** [document.querySelectorAll('.batch-actions')] *)
Definition document_batch_actions (p : Page) : list BatchActions :=
  containers p ≫= batch.

Definition updateBatchActionButtons (p : Page) : Page :=
  let selectedRows := document_select_rows_checked p in
  forEach_batch_actions
    (λ actionDiv,
       if (0 <? length selectedRows)%nat then
         set_selected_count (pretty (length selectedRows))
           (set_ba_classes
              (classList_remove "d-none" (ba_classes actionDiv)) actionDiv)
       else
         set_ba_classes (classList_add "d-none" (ba_classes actionDiv))
           actionDiv)
    p.

(** [String.prototype.includes] *)
Fixpoint includes (s sub : string) : bool :=
  String.prefix sub s ||
  match s with
  | EmptyString => false
  | String _ s' => includes s' sub
  end.

(** [array.splice(start, 0, x)] *)
Definition splice_insert {A} (start : nat) (x : A) (l : list A) : list A :=
  take start l ++ x :: drop start l.

Definition exportAction : Action :=
  {| action_text := "Batch Export"; action_icon := "bi-download";
     action_key := "exportSelected"; action_class := None |}.
Definition deleteAction : Action :=
  {| action_text := "Batch Delete"; action_icon := "bi-trash";
     action_key := "deleteSelected"; action_class := Some "text-danger" |}.
Definition adjustPriceAction : Action :=
  {| action_text := "Batch Adjust Price"; action_icon := "bi-currency-yen";
     action_key := "adjustPrice"; action_class := None |}.
Definition adjustStockAction : Action :=
  {| action_text := "Batch Adjust Stock"; action_icon := "bi-box-seam";
     action_key := "adjustStock"; action_class := None |}.

(** The [actions] array once the page type has been looked at. *)
Definition actions (path : string) : list Action :=
  let actions := [exportAction; deleteAction] in
  if includes path "/product/" then splice_insert 1 adjustPriceAction actions
  else if includes path "/inventory/" then
    splice_insert 1 adjustStockAction actions
  else actions.

Definition menu_item (a : Action) : MenuItem :=
  {| item_className :=
       "dropdown-item batch-action " +:+ default "" (action_class a);
     item_href := "#";
     item_data_action := action_key a;
     item_icon := action_icon a;
     item_text := action_text a |}.

Definition new_batch_actions (path : string) : BatchActions :=
  {| ba_classes := ["batch-actions"; "dropdown"; "d-none"; "ms-2"];
     selected_count := "0";
     ba_menu := menu_item <$> actions path |}.

Definition setupBatchActionButtons (p : Page) : Page :=
  let add (container : Container) : Container :=
    match batch container with
    | [] => {| batch := [new_batch_actions (pathname p)] |}
    | _ :: _ => container
    end in
  updateBatchActionButtons (set_containers (add <$> containers p) p).

Definition setupBatchOperations (p : Page) : Page :=
  setupBatchActionButtons (setupBatchSelection p).

(** *** Change listeners and the clicks that trigger them *)

(** The listener of the select-all checkbox of the table at index [ti] of
    [document.querySelectorAll('.table')] ([this] is that checkbox). *)
Definition onSelectAllChange (ti : nat) (p : Page) : Page :=
  match tables p !! ti ≫= selectAllCheckbox with
  | Some this =>
      let isChecked := checked this in
      let p := set_tables
                 (alter (forEach_select_row (set_checked isChecked)) ti
                    (tables p)) p in
      updateBatchActionButtons p
  | None => p
  end.

(** What the row listener writes to [selectAllCheckbox]. *)
Definition refresh_selectAll (t : Table) : Table :=
  let allCheckboxes := select_rows t in
  let checkedCheckboxes := select_rows_checked t in
  update_selectAll
    (λ cb,
       set_indeterminate
         ((0 <? length checkedCheckboxes)%nat &&
          (length checkedCheckboxes <? length allCheckboxes)%nat)
         (set_checked
            (length allCheckboxes =? length checkedCheckboxes)%nat cb))
    t.

(** The listener of a row checkbox of the table at index [ti]. *)
Definition onRowChange (ti : nat) (p : Page) : Page :=
  let p := updateBatchActionButtons p in
  set_tables (alter refresh_selectAll ti (tables p)) p.

(** A user click flips the checkbox, clears [indeterminate] and fires
    [change], which runs every listener attached to the element. *)
Definition toggle (cb : Checkbox) : Checkbox :=
  set_indeterminate false (set_checked (negb (checked cb)) cb).

Definition row_checkbox_at (ri ci : nat) (t : Table) : option Checkbox :=
  r ← tbody t !! ri;
  c ← cells r !! ci;
  match c with SelectCell cb => Some cb | DataCell _ => None end.

Definition alter_row_checkbox (f : Checkbox → Checkbox) (ri ci : nat)
    (t : Table) : Table :=
  {| thead := thead t;
     tbody := alter (λ r, {| data_id := data_id r;
                             cells := alter (map_cell f) ci (cells r) |})
                ri (tbody t) |}.

Definition clickSelectAll (ti : nat) (p : Page) : Page :=
  match tables p !! ti ≫= selectAllCheckbox with
  | Some cb =>
      let p := set_tables (alter (update_selectAll toggle) ti (tables p)) p in
      Nat.iter (listeners cb) (onSelectAllChange ti) p
  | None => p
  end.

Definition clickRowCheckbox (ti ri ci : nat) (p : Page) : Page :=
  match tables p !! ti ≫= row_checkbox_at ri ci with
  | Some cb =>
      let p := set_tables
                 (alter (alter_row_checkbox toggle ri ci) ti (tables p)) p in
      Nat.iter (listeners cb) (onRowChange ti) p
  | None => p
  end.

Inductive Event :=
| ClickSelectAll (ti : nat)
| ClickRow (ti ri ci : nat).

Definition step (p : Page) (e : Event) : Page :=
  match e with
  | ClickSelectAll ti => clickSelectAll ti p
  | ClickRow ti ri ci => clickRowCheckbox ti ri ci p
  end.

Definition run (es : list Event) (p : Page) : Page := foldl step p es.

(** *** Submission Adapter *)

Record Input := {
  input_type : string;
  input_name : string;
  input_value : string
}.

Record Form := {
  form_method : string;
  form_action : string;
  form_display : string;        (* form.style.display *)
  form_inputs : list Input
}.

(** What a handler does to the world outside the tables. *)
Inductive Outcome :=
| Toast (message icon : string) (timer : Z)     (* showAlert *)
| Submitted (f : Form)            (* appended to the body and submitted *)
| TypeError                       (* no token input: [null.value] *)
| ConfirmDialog (title text : string) (ids : list string)
| PriceModal (ids : list string)
| StockModal (ids : list string)
| MarkedInvalid                   (* form.classList.add('was-validated') *)
| ConsoleWarn (message action : string).

Definition hidden (name value : string) : Input :=
  {| input_type := "hidden"; input_name := name; input_value := value |}.

Definition showAlert (message type : string) : Outcome :=
  Toast message type 3000.

Definition exportSelectedItems (p : Page) (ids : list string) : Outcome :=
  match csrf_token p with
  | None => TypeError
  | Some csrfToken =>
      Submitted
        {| form_method := "POST";
           form_action := pathname p +:+ "export/";
           form_display := "none";
           form_inputs :=
             hidden "csrfmiddlewaretoken" csrfToken
             :: (hidden "selected_ids" <$> ids) |}
  end.

Definition deleteSelectedItems (p : Page) (ids : list string) : Outcome :=
  match csrf_token p with
  | None => TypeError
  | Some csrfToken =>
      Submitted
        {| form_method := "POST";
           form_action := pathname p +:+ "batch-delete/";
           form_display := "none";
           form_inputs :=
             hidden "csrfmiddlewaretoken" csrfToken
             :: (hidden "selected_ids" <$> ids) |}
  end.

Definition confirmDeleteSelected (ids : list string) : Outcome :=
  ConfirmDialog "Confirm Delete"
    ("Are you sure you want to delete the selected " +:+ pretty (length ids)
     +:+ " item(s)? This operation cannot be undone!")
    ids.

(** What the dialog resolves to. *)
Record SwalResult := { isConfirmed : bool }.

(** The [then] callback of [confirmDeleteSelected]. *)
Definition confirmDeleteSelected_then (p : Page) (ids : list string)
    (result : SwalResult) : option Outcome :=
  if isConfirmed result then Some (deleteSelectedItems p ids) else None.

Definition submitPriceAdjustment (p : Page) (ids : list string)
    (type value field : string) : Outcome :=
  match csrf_token p with
  | None => TypeError
  | Some csrfToken =>
      Submitted
        {| form_method := "POST";
           form_action := pathname p +:+ "batch-adjust-price/";
           form_display := "none";
           form_inputs :=
             hidden "csrfmiddlewaretoken" csrfToken
             :: hidden "adjustment_type" type
             :: hidden "adjustment_value" value
             :: hidden "adjustment_field" field
             :: (hidden "selected_ids" <$> ids) |}
  end.

(** The fields of [#adjustPriceForm] when the confirm button is clicked. *)
Record PriceForm := {
  checkValidity : bool;
  adjustmentType : string;
  adjustmentValue : string;
  adjustField : string
}.

(** The [click] listener of [#confirmAdjustPrice]. *)
Definition confirmAdjustPrice_click (p : Page) (ids : list string)
    (form : PriceForm) : Outcome :=
  if checkValidity form then
    submitPriceAdjustment p ids
      (adjustmentType form) (adjustmentValue form) (adjustField form)
  else MarkedInvalid.

(** The ids that [handleBatchAction] collects: for each checked
    [.select-row], in document order, the [data-id] of its row or the empty
    string, with the empty ones dropped. *)
Definition row_selected_ids (r : Row) : list string :=
  (λ _, default "" (data_id r)) <$>
    filter (λ cb, checked cb = true) (row_checkboxes r).

Definition selectedIds (p : Page) : list string :=
  filter (λ id, id ≠ "")
         (tables p ≫= λ t, tbody t ≫= row_selected_ids).

Definition handleBatchAction (p : Page) (action : string) : Outcome :=
  let selectedIds := selectedIds p in
  if (length selectedIds =? 0)%nat then
    showAlert "Please select items to operate on first" "warning"
  else if bool_decide (action = "exportSelected") then
    exportSelectedItems p selectedIds
  else if bool_decide (action = "deleteSelected") then
    confirmDeleteSelected selectedIds
  else if bool_decide (action = "adjustPrice") then
    PriceModal selectedIds
  else if bool_decide (action = "adjustStock") then
    StockModal selectedIds
  else ConsoleWarn "Unknown batch operation:" action.

(** The [click] listener of a menu entry. *)
Definition clickMenuItem (p : Page) (item : MenuItem) : Outcome :=
  handleBatchAction p (item_data_action item).

(** *** Sample pages *)

Definition plain_row (id : string) : Row :=
  {| data_id := Some id; cells := [DataCell id] |}.

Definition plain_table (ids : list string) : Table :=
  {| thead := [[PlainTh "Name"]]; tbody := plain_row <$> ids |}.

(** A page as the server renders it: a token, some tables, one action
    container. *)
Definition server_page (path : string) (idss : list (list string)) : Page :=
  {| pathname := path; csrf_token := Some "tok3n";
     tables := plain_table <$> idss;
     containers := [ {| batch := [] |} ] |}.

Definition badges (p : Page) : list (bool * string) :=
  (λ b, (classList_contains "d-none" (ba_classes b), selected_count b))
    <$> document_batch_actions p.

(** Did the dispatch get past the guard, to one of the four handlers? *)
Definition reaches_handler (o : Outcome) : bool :=
  match o with
  | Submitted _ | TypeError | ConfirmDialog _ _ _ | PriceModal _
  | StockModal _ => true
  | Toast _ _ _ | MarkedInvalid | ConsoleWarn _ _ => false
  end.

(** A page on which rows 7 and 9 of the only table have been ticked. *)
Definition page_7_9 : Page :=
  run [ClickRow 0 0 0; ClickRow 0 1 0]
      (setupBatchOperations (server_page "/product/" [["7"; "9"]])).

(** A page whose ticked rows carry no usable [data-id]. *)
Definition page_without_ids : Page :=
  let ticked := {| checked := true; indeterminate := false; listeners := 1 |} in
  {| pathname := "/product/"; csrf_token := Some "tok3n";
     tables := [ {| thead := [[SelectAllTh ticked; PlainTh "Name"]];
                    tbody := [ {| data_id := None;
                                  cells := [SelectCell ticked] |};
                               {| data_id := Some "";
                                  cells := [SelectCell ticked] |} ] |} ];
     containers := [ {| batch := [new_batch_actions "/product/"] |} ] |}.

(** *** Vocabulary of the statements *)

(** An augmented table: its first header cell is the select-all checkbox,
    and that checkbox and every row checkbox carry a listener. *)
Definition wired (t : Table) : bool :=
  match selectAllCheckbox t with
  | Some h =>
      (0 <? listeners h)%nat &&
      forallb (λ cb, (0 <? listeners cb)%nat) (select_rows t)
  | None => false
  end.

Definition checked_count (t : Table) : nat := length (select_rows_checked t).

(** The number of checked row checkboxes in the whole document. *)
Definition total_checked (p : Page) : nat :=
  length (document_select_rows_checked p).

(** The number of checked row checkboxes outside the table at [ti]. *)
Definition checked_elsewhere (ti : nat) (p : Page) : nat :=
  (length (take ti (tables p) ≫= select_rows_checked) +
   length (drop (S ti) (tables p) ≫= select_rows_checked))%nat.

Definition ba_hidden (b : BatchActions) : bool :=
  classList_contains "d-none" (ba_classes b).

(** What [updateBatchActionButtons] does to one control when [n] rows are
    selected. *)
Definition show_count (n : nat) (actionDiv : BatchActions) : BatchActions :=
  if (0 <? n)%nat then
    set_selected_count (pretty n)
      (set_ba_classes (classList_remove "d-none" (ba_classes actionDiv))
         actionDiv)
  else
    set_ba_classes (classList_add "d-none" (ba_classes actionDiv)) actionDiv.

(** The control [b'] is [b] after an update for [n] selected rows: shown
    with [n] in the badge when [n] is positive, else hidden with the badge
    text as it was. *)
Definition badge_after (n : nat) (b b' : BatchActions) : Prop :=
  if (0 <? n)%nat then ba_hidden b' = false ∧ selected_count b' = pretty n
  else ba_hidden b' = true ∧ selected_count b' = selected_count b.

(** The control is in step with [n] selected rows. *)
Definition badge_in_step (n : nat) (b : BatchActions) : Prop :=
  if (0 <? n)%nat then ba_hidden b = false ∧ selected_count b = pretty n
  else ba_hidden b = true.

(** The ids that the checked rows of one table contribute. *)
Definition table_selected_ids (t : Table) : list string :=
  filter (λ id, id ≠ "") (tbody t ≫= row_selected_ids).

(** The table an event happens in, and the number of listeners on the
    checkbox that is clicked (0 when there is no such checkbox). *)
Definition event_table (e : Event) : nat :=
  match e with ClickSelectAll ti | ClickRow ti _ _ => ti end.

Definition event_listeners (p : Page) (e : Event) : nat :=
  match e with
  | ClickSelectAll ti =>
      default 0%nat (listeners <$> (tables p !! ti ≫= selectAllCheckbox))
  | ClickRow ti ri ci =>
      default 0%nat (listeners <$> (tables p !! ti ≫= row_checkbox_at ri ci))
  end.

(** The select-all checkbox [h] agrees with the row checkboxes of [t]. *)
Definition header_in_step (t : Table) (h : Checkbox) : Prop :=
  checked h = bool_decide (checked_count t = length (select_rows t)) ∧
  indeterminate h
  = bool_decide (0 < checked_count t < length (select_rows t))%nat.

(** A table as the server renders it: no selection column, no row
    checkbox. *)
Definition fresh_table (t : Table) : Prop :=
  hasCheckboxColumn t = false ∧ select_rows t = [].

(** A table is settled when it is either untouched and without
    checkboxes, or augmented with, as soon as it has a row checkbox, a
    select-all checkbox that agrees with its rows. *)
Definition settled (t : Table) : Prop :=
  (selectAllCheckbox t = None ∧ select_rows t = []) ∨
  (wired t = true ∧
   (select_rows t ≠ [] →
    ∃ h, selectAllCheckbox t = Some h ∧ header_in_step t h)).

Definition page_settled (p : Page) : Prop :=
  Forall settled (tables p) ∧
  Forall (badge_in_step (total_checked p)) (document_batch_actions p).

(** *** Two readings that the statements are measured against *)

(** The header toggle read as: all row checkboxes of the table take the
    new value of the header, and the badge then says N when the header is
    checked, and 0 with the control hidden when it is not. *)
Definition header_toggle_claim (p : Page) (ti : nat) : Prop :=
  ∀ t, tables p !! ti = Some t → wired t = true →
    ∃ t' h',
      tables (clickSelectAll ti p) !! ti = Some t' ∧
      selectAllCheckbox t' = Some h' ∧
      Forall (λ cb, checked cb = checked h') (select_rows t') ∧
      Forall (λ b,
                if checked h' then
                  selected_count b = pretty (length (select_rows t'))
                else selected_count b = "0" ∧ ba_hidden b = true)
             (document_batch_actions (clickSelectAll ti p)).

(** Selection read as a per-table matter: an event in one table leaves the
    other tables alone, and afterwards the badge and the dispatched ids
    are those of that table only. *)
Definition per_table_claim (p : Page) (e : Event) : Prop :=
  (∀ tj, tj ≠ event_table e → tables (step p e) !! tj = tables p !! tj) ∧
  (∀ t', tables (step p e) !! event_table e = Some t' →
     Forall (badge_in_step (checked_count t'))
            (document_batch_actions (step p e)) ∧
     selectedIds (step p e) = table_selected_ids t').

(** One table, both rows ticked through the header. *)
Definition page_all_ticked : Page :=
  run [ClickSelectAll 0]
      (setupBatchOperations (server_page "/product/" [["7"; "9"]])).

(** Two tables; the only row of the second is ticked. *)
Definition page_two_tables : Page :=
  run [ClickRow 1 0 0]
      (setupBatchOperations (server_page "/product/" [["7"; "9"]; ["3"]])).

(** ** Field validation (enhanced-validation.js) *)

(** *** Anchored regular expressions

    The expressions of [validateField] and [validatePassword] are anchored
    at both ends, use classes beyond ASCII ([\s]) and, for the password,
    lookaheads at the start.  [pat] takes any class of code units as a
    symbol; [anchored] is [^(?=l1)...(?=ln)body$]. *)
Module Pattern.

Inductive pat :=
| Fail
| Empty
| Sym (f : code_unit → bool)
| Seq (p q : pat)
| Or (p q : pat)
| Many (p : pat).

Fixpoint nullable (p : pat) : bool :=
  match p with
  | Fail => false
  | Empty => true
  | Sym _ => false
  | Seq p q => nullable p && nullable q
  | Or p q => nullable p || nullable q
  | Many _ => true
  end.

Fixpoint deriv (c : code_unit) (p : pat) : pat :=
  match p with
  | Fail => Fail
  | Empty => Fail
  | Sym f => if f c then Empty else Fail
  | Seq p q =>
      if nullable p then Or (Seq (deriv c p) q) (deriv c q)
      else Seq (deriv c p) q
  | Or p q => Or (deriv c p) (deriv c q)
  | Many p => Seq (deriv c p) (Many p)
  end.

(** [^p$]: the whole string matches. *)
Fixpoint full (p : pat) (s : jsstring) : bool :=
  match s with
  | [] => nullable p
  | c :: s' => full (deriv c p) s'
  end.

(** [(?=p)] at the start: some prefix of the string matches. *)
Fixpoint look (p : pat) (s : jsstring) : bool :=
  nullable p ||
  match s with
  | [] => false
  | c :: s' => look (deriv c p) s'
  end.

(** [p{n}], [p{n,}] and [p+]. *)
Fixpoint times (n : nat) (p : pat) : pat :=
  match n with
  | O => Empty
  | S n => Seq p (times n p)
  end.

Definition at_least (n : nat) (p : pat) : pat := Seq (times n p) (Many p).

Definition some (p : pat) : pat := at_least 1 p.

Record anchored := {
  lookaheads : list pat;
  body : pat
}.

Definition test (a : anchored) (s : jsstring) : bool :=
  forallb (λ l, look l s) (lookaheads a) && full (body a) s.

(** The language of a pattern, for reference. *)
Inductive Lang : pat → jsstring → Prop :=
| LEmpty : Lang Empty []
| LSym f c : f c = true → Lang (Sym f) [c]
| LSeq p q s1 s2 : Lang p s1 → Lang q s2 → Lang (Seq p q) (s1 ++ s2)
| LOrL p q s : Lang p s → Lang (Or p q) s
| LOrR p q s : Lang q s → Lang (Or p q) s
| LManyNil p : Lang (Many p) []
| LManyCons p c s1 s2 :
    Lang p (c :: s1) → Lang (Many p) s2 → Lang (Many p) (c :: s1 ++ s2).

(** Classes as lists of inclusive ranges of code units. *)
Definition rg (lo hi : ascii) : N * N := (code_of_ascii lo, code_of_ascii hi).
Definition ch (a : ascii) : N * N := rg a a.

Definition cls (ranges : list (N * N)) (c : code_unit) : bool :=
  existsb (λ r, (r.1 <=? c) && (c <=? r.2))%N ranges.

Definition ncls (ranges : list (N * N)) (c : code_unit) : bool :=
  negb (cls ranges c).

(** [.] *)
Definition dot (c : code_unit) : bool := negb (Regex.line_terminator c).

(** [\s]: the white space and line terminators of ECMAScript. *)
Definition space : list (N * N) :=
  [ (9, 13); (32, 32); (160, 160); (5760, 5760); (8192, 8202);
    (8232, 8233); (8239, 8239); (8287, 8287); (12288, 12288);
    (65279, 65279) ]%N.

End Pattern.

Section ValidationPatterns.
Import Pattern.

Definition lower_class : list (N * N) := [rg "a" "z"].
Definition upper_class : list (N * N) := [rg "A" "Z"].
Definition digit_class : list (N * N) := [rg "0" "9"].

(** The special characters of the source, [! @ # $ % ^ & * ( ) , . ?], the
    double quote (code unit 34) and [: { } | < >]. *)
Definition special_class : list (N * N) :=
  [ ch "!"; ch "@"; ch "#"; ch "$"; ch "%"; ch "^"; ch "&"; ch "*"; ch "(";
    ch ")"; ch ","; ch "."; ch "?"; (34, 34)%N; ch ":"; ch "{"; ch "}";
    ch "|"; ch "<"; ch ">" ]%char.

(** [A-Z], [a-z], [\d] and the special characters. *)
Definition password_class : list (N * N) :=
  upper_class ++ lower_class ++ digit_class ++ special_class.

(** [(?=.*X)] *)
Definition somewhere (ranges : list (N * N)) : pat :=
  Seq (Many (Sym dot)) (Sym (cls ranges)).

(** [passwordRegex]: four lookaheads at the start, for a lower-case
    letter, an upper-case letter, a digit and a special character, then
    eight or more characters of the password class up to the end. *)
Definition passwordRegex : anchored :=
  {| lookaheads := [ somewhere lower_class; somewhere upper_class;
                     somewhere digit_class; somewhere special_class ];
     body := at_least 8 (Sym (cls password_class)) |}.

Definition validatePassword (password : jsstring) : bool :=
  Pattern.test passwordRegex password.

(** [/^[^\s@]+@[^\s@]+\.[^\s@]+$/] *)
Definition emailRegex : anchored :=
  let part := some (Sym (ncls (space ++ [ch "@"%char]))) in
  {| lookaheads := [];
     body := Seq part
               (Seq (Sym (cls [ch "@"%char]))
                  (Seq part (Seq (Sym (cls [ch "."%char])) part))) |}.

(** [/^1[3-9]\d{9}$/] *)
Definition phoneRegex : anchored :=
  {| lookaheads := [];
     body := Seq (Sym (cls [ch "1"%char]))
               (Seq (Sym (cls [rg "3" "9"]))
                  (times 9 (Sym (cls digit_class)))) |}.

(** [/^[A-Za-z0-9\-]{4,}$/] *)
Definition barcode_class : list (N * N) :=
  [rg "A" "Z"; rg "a" "z"; rg "0" "9"; ch "-"]%char.

Definition barcodeRegex : anchored :=
  {| lookaheads := []; body := at_least 4 (Sym (cls barcode_class)) |}.

End ValidationPatterns.

(** The string holds a code unit of the class. *)
Definition has (ranges : list (N * N)) (s : jsstring) : Prop :=
  ∃ c, c ∈ s ∧ Pattern.cls ranges c = true.

(** A part of an e-mail address as [emailRegex] wants it: not empty, no
    white space, no [@]. *)
Definition email_part (s : jsstring) : Prop :=
  s ≠ [] ∧
  Forall (λ c, Pattern.ncls (Pattern.space ++ [Pattern.ch "@"%char]) c = true)
         s.

(** *** Fields and their feedback *)

(** An element sibling that follows a field: an error message (an element
    of class [invalid-feedback]) or anything else. *)
Inductive Sibling :=
| Feedback (message : string)
| OtherElement.

(** A form field as [validateField] sees it.  [validity] is what
    [field.checkValidity()] answers for the current value; [following] are
    the element siblings after the field, the nearest first. *)
Record Field := {
  field_type : string;
  field_name : string;
  field_value : jsstring;
  validity : bool;
  required : bool;
  field_classes : classList;
  following : list Sibling
}.

Definition set_field_classes (l : classList) (f : Field) : Field :=
  {| field_type := field_type f; field_name := field_name f;
     field_value := field_value f; validity := validity f;
     required := required f; field_classes := l; following := following f |}.

Definition set_following (l : list Sibling) (f : Field) : Field :=
  {| field_type := field_type f; field_name := field_name f;
     field_value := field_value f; validity := validity f;
     required := required f; field_classes := field_classes f;
     following := l |}.

(** [field.nextElementSibling] is an [invalid-feedback] element. *)
Definition next_is_feedback (f : Field) : bool :=
  match following f with
  | Feedback _ :: _ => true
  | _ => false
  end.

(** Remove [field.nextElementSibling] when it is an error message. *)
Definition remove_feedback (f : Field) : Field :=
  match following f with
  | Feedback _ :: rest => set_following rest f
  | _ => f
  end.

Definition showValidationError (message : string) (field : Field) : Field :=
  let field := remove_feedback field in
  set_following (Feedback message :: following field) field.

(** The special validation of [validateField]: the verdict it computes and
    the message it may show. *)
Definition special_check (re : Pattern.anchored) (message : string)
    (showError : bool) (field : Field) : bool * Field :=
  let isValid := Pattern.test re (field_value field) in
  (isValid,
   if negb isValid && showError then showValidationError message field
   else field).

Definition validateField (field : Field) (showError : bool) : bool * Field :=
  let isValid := validity field in
  (* Special field validation *)
  let '(isValid, field) :=
    if bool_decide (field_type field = "email") && truthy (field_value field)
    then special_check emailRegex "Please enter a valid email address"
           showError field
    else if bool_decide (field_type field = "tel")
            && truthy (field_value field)
    then special_check phoneRegex "Please enter a valid phone number"
           showError field
    else if bool_decide (field_name field = "barcode")
            && truthy (field_value field)
    then special_check barcodeRegex
           "Barcode format is incorrect, please check" showError field
    else (isValid, field) in
  (* Show or hide validation feedback *)
  let field :=
    if showError then
      if isValid then
        let field :=
          set_field_classes
            (classList_add "is-valid"
               (classList_remove "is-invalid" (field_classes field))) field in
        remove_feedback field
      else if negb (classList_contains "is-invalid" (field_classes field)) then
        let field :=
          set_field_classes
            (classList_remove "is-valid"
               (classList_add "is-invalid" (field_classes field))) field in
        if negb (next_is_feedback field) then
          showValidationError "This field is required" field
        else field
      else field
    else field in
  (isValid, field).

(** The verdict of [validateField], by itself. *)
Definition verdict_of (f : Field) : bool :=
  if bool_decide (field_type f = "email") && truthy (field_value f)
  then Pattern.test emailRegex (field_value f)
  else if bool_decide (field_type f = "tel") && truthy (field_value f)
  then Pattern.test phoneRegex (field_value f)
  else if bool_decide (field_name f = "barcode") && truthy (field_value f)
  then Pattern.test barcodeRegex (field_value f)
  else validity f.

(** The user edits the field: the value changes, and with it what
    [checkValidity] answers; the [input] listener then runs
    [validateField(this)], whose result is dropped. *)
Definition onFieldInput (value : jsstring) (valid : bool) (f : Field) : Field :=
  let f := {| field_type := field_type f; field_name := field_name f;
              field_value := value; validity := valid;
              required := required f; field_classes := field_classes f;
              following := following f |} in
  (validateField f false).2.

(** The [blur] listener. *)
Definition onFieldBlur (f : Field) : Field := (validateField f true).2.

Inductive FieldEvent :=
| FieldInput (value : jsstring) (valid : bool)
| FieldBlur.

Definition field_step (f : Field) (e : FieldEvent) : Field :=
  match e with
  | FieldInput value valid => onFieldInput value valid f
  | FieldBlur => onFieldBlur f
  end.

(** *** The submit listener of [enhanceFormValidation] *)

(** What the listener leaves behind: the fields, whether the submission
    was prevented, and the index of the field that received the focus. *)
Record SubmitResult := {
  fields_after : list Field;
  prevented : bool;
  focused : option nat
}.

Definition password_message : string :=
  "Password must contain at least 8 characters, including uppercase and lowercase letters, numbers, and special characters".

(** [fields] are the fields of the form in document order; the required
    ones match [[required]], and the password field is the first one of
    type [password]. *)
Definition onFormSubmit (fields : list Field) : SubmitResult :=
  (* Validate all required fields *)
  let isValid :=
    forallb (λ f, if required f then (validateField f true).1 else true)
            fields in
  let fields :=
    (λ f, if required f then (validateField f true).2 else f) <$> fields in
  (* Validate password field *)
  let passwordField :=
    list_find (λ f, field_type f = "password") fields in
  let '(isValid, fields) :=
    match passwordField with
    | Some (i, f) =>
        if truthy (field_value f) && negb (validatePassword (field_value f))
        then (false, alter (showValidationError password_message) i fields)
        else (isValid, fields)
    | None => (isValid, fields)
    end in
  (* If validation fails, prevent form submission *)
  {| fields_after := fields;
     prevented := negb isValid;
     focused :=
       if isValid then None
       else fst <$> list_find
                      (λ f, classList_contains "is-invalid" (field_classes f)
                            = true) fields |}.

(** A field as the server renders it for this script: neither validation
    class, no error message after it. *)
Definition fresh_field (f : Field) : Prop :=
  classList_contains "is-valid" (field_classes f) = false ∧
  classList_contains "is-invalid" (field_classes f) = false ∧
  Forall (λ x, x = OtherElement) (following f).

(** A field is consistent when it does not carry both validation classes
    and carries [is-invalid] exactly when an error message follows it, at
    most one of them. *)
Definition consistent (f : Field) : Prop :=
  (classList_contains "is-invalid" (field_classes f) = true →
   classList_contains "is-valid" (field_classes f) = false) ∧
  classList_contains "is-invalid" (field_classes f) = next_is_feedback f ∧
  Forall (λ x, x = OtherElement) (drop 1 (following f)).

Definition sample_email : Field :=
  {| field_type := "email"; field_name := "email";
     field_value := js "a@b"; validity := true; required := true;
     field_classes := ["form-control"]; following := [] |}.

Definition sample_password (value : string) : Field :=
  {| field_type := "password"; field_name := "password";
     field_value := js value; validity := true; required := true;
     field_classes := ["form-control"]; following := [] |}.

Definition sample_text (value : string) : Field :=
  {| field_type := "text"; field_name := "notes";
     field_value := js value; validity := true; required := false;
     field_classes := ["form-control"]; following := [] |}.

Definition sample_address (value : string) : Field :=
  {| field_type := "email"; field_name := "email";
     field_value := js value; validity := true; required := true;
     field_classes := ["form-control"]; following := [] |}.

(** ** More of the batch subsystem *)

Definition submitStockAdjustment (p : Page) (ids : list string)
    (type value notes : string) : Outcome :=
  match csrf_token p with
  | None => TypeError
  | Some csrfToken =>
      Submitted
        {| form_method := "POST";
           form_action := pathname p +:+ "batch-adjust-stock/";
           form_display := "none";
           form_inputs :=
             hidden "csrfmiddlewaretoken" csrfToken
             :: hidden "adjustment_type" type
             :: hidden "adjustment_value" value
             :: hidden "adjustment_notes" notes
             :: (hidden "selected_ids" <$> ids) |}
  end.

(** The fields of [#adjustStockForm] when the confirm button is clicked. *)
Record StockForm := {
  stock_checkValidity : bool;
  stockAdjustmentType : string;
  stockAdjustmentValue : string;
  stockAdjustmentNotes : string
}.

(** The [click] listener of [#confirmAdjustStock]. *)
Definition confirmAdjustStock_click (p : Page) (ids : list string)
    (form : StockForm) : Outcome :=
  if stock_checkValidity form then
    submitStockAdjustment p ids
      (stockAdjustmentType form) (stockAdjustmentValue form)
      (stockAdjustmentNotes form)
  else MarkedInvalid.

(** A parameter dialog in the document.  Its markup is inserted on the
    first call only and never removed, and every call of
    [showAdjustPriceModal] or [showAdjustStockModal] adds a [click]
    listener to its confirm button; each listener keeps the ids of its
    call. *)
Record Dialog := {
  dialog_present : bool;
  confirm_listeners : list (list string)
}.

Definition no_dialog : Dialog :=
  {| dialog_present := false; confirm_listeners := [] |}.

(** What [showAdjustPriceModal(ids)] does to [#adjustPriceModal], and
    [showAdjustStockModal(ids)] to [#adjustStockModal]. *)
Definition showAdjustPriceModal (ids : list string) (d : Dialog) : Dialog :=
  {| dialog_present := true;
     confirm_listeners :=
       (if dialog_present d then confirm_listeners d else []) ++ [ids] |}.

Definition showAdjustStockModal (ids : list string) (d : Dialog) : Dialog :=
  {| dialog_present := true;
     confirm_listeners :=
       (if dialog_present d then confirm_listeners d else []) ++ [ids] |}.

(** A click on the confirm button runs every listener, in the order of
    their registration. *)
Definition clickConfirmAdjustPrice (p : Page) (d : Dialog) (form : PriceForm)
    : list Outcome :=
  (λ ids, confirmAdjustPrice_click p ids form) <$> confirm_listeners d.

Definition clickConfirmAdjustStock (p : Page) (d : Dialog) (form : StockForm)
    : list Outcome :=
  (λ ids, confirmAdjustStock_click p ids form) <$> confirm_listeners d.

(** Every row of every table carries a non-empty [data-id]. *)
Definition rows_have_ids (p : Page) : Prop :=
  Forall (λ t, Forall (λ r, ∃ id, data_id r = Some id ∧ id ≠ "") (tbody t))
         (tables p).

(** The inputs of a submitted form that carry ids. *)
Definition submitted_ids (o : Outcome) : option (list string) :=
  match o with
  | Submitted f =>
      Some (input_value <$>
              filter (λ i, input_name i = "selected_ids") (form_inputs f))
  | _ => None
  end.

Definition submitted_token (o : Outcome) : option string :=
  match o with
  | Submitted f =>
      input_value <$>
        head (filter (λ i, input_name i = "csrfmiddlewaretoken")
                (form_inputs f))
  | _ => None
  end.

Definition submitted_action (o : Outcome) : option string :=
  match o with
  | Submitted f => Some (form_action f)
  | _ => None
  end.

(** ** Security features (enhanced-validation-part2.js) *)

(** *** The visibility toggle of [enhancePasswordFields] *)

Definition set_field_type (type : string) (f : Field) : Field :=
  {| field_type := type; field_name := field_name f;
     field_value := field_value f; validity := validity f;
     required := required f; field_classes := field_classes f;
     following := following f |}.

(** The button placed after a password field: the icon of its
    [innerHTML] and its [aria-label]. *)
Record ToggleButton := {
  toggle_icon : string;
  toggle_label : string
}.

Definition new_toggleButton : ToggleButton :=
  {| toggle_icon := "bi bi-eye"; toggle_label := "Show password" |}.

(** The [click] listener of the toggle button of [field]. *)
Definition onToggleClick (st : Field * ToggleButton) : Field * ToggleButton :=
  let field := st.1 in
  let type :=
    if bool_decide (field_type field = "password") then "text"
    else "password" in
  (set_field_type type field,
   {| toggle_icon :=
        if bool_decide (type = "password") then "bi bi-eye"
        else "bi bi-eye-slash";
      toggle_label :=
        if bool_decide (type = "password") then "Show password"
        else "Hide password" |}).

(** *** Secondary confirmation *)

(** An element matched by the selectors of
    [addConfirmationForSensitiveActions].  [confirmation_added] is its
    [data-confirmation-added] attribute; each of its [click] listeners
    added here is recorded by the operation type it keeps. *)
Record Element := {
  tagName : string;
  el_type : string;
  textContent : string;
  el_href : string;
  has_form : bool;              (* [this.form] is not null *)
  confirmation_added : option string;
  click_listeners : list string
}.

(** An attribute value read through [getAttribute], as a condition. *)
Definition attribute_set (a : option string) : bool :=
  match a with
  | Some v => negb (bool_decide (v = ""))
  | None => false
  end.

Definition actionType (button : Element) : string :=
  if includes (textContent button) "Delete"
     || includes (textContent button) "删除" then "Delete"
  else if includes (textContent button) "Reset"
          || includes (textContent button) "重置" then "Reset"
  else "Execute this operation".

(** The body of the [forEach] over the matched elements. *)
Definition guard (button : Element) : Element :=
  if attribute_set (confirmation_added button) then button
  else
    {| tagName := tagName button; el_type := el_type button;
       textContent := textContent button; el_href := el_href button;
       has_form := has_form button;
       confirmation_added := Some "true";
       click_listeners := click_listeners button ++ [actionType button] |}.

Definition addConfirmationForSensitiveActions (sensitiveButtons : list Element)
    : list Element :=
  guard <$> sensitiveButtons.







(** * Properties *)

(** ** The regular-expression matcher computes the language *)

Section RegexCorrect.
Import Regex.

Lemma nullable_Matches r : nullable r = true ↔ Matches r [].
Proof.
  split.
  - induction r; simpl; intros H; try discriminate.
    + constructor.
    + apply andb_true_iff in H as [H1 H2].
      change (@nil code_unit) with (@nil code_unit ++ []).
      constructor; auto.
    + apply orb_true_iff in H as [H|H]; [apply MAltL | apply MAltR]; auto.
    + constructor.
  - intros H. remember [] as s eqn:Hs.
    induction H; simpl; subst; try discriminate; auto.
    + apply app_eq_nil in Hs as [-> ->].
      rewrite IHMatches1, IHMatches2; auto.
    + rewrite IHMatches; auto.
    + rewrite IHMatches, orb_true_r; auto.
Qed.

Lemma Matches_Cat_inv r1 r2 s :
  Matches (Cat r1 r2) s ↔
  ∃ s1 s2, s = s1 ++ s2 ∧ Matches r1 s1 ∧ Matches r2 s2.
Proof.
  split.
  - inversion 1; subst; eauto.
  - intros (s1 & s2 & -> & H1 & H2). by constructor.
Qed.

Lemma Matches_Alt_inv r1 r2 s :
  Matches (Alt r1 r2) s ↔ Matches r1 s ∨ Matches r2 s.
Proof.
  split.
  - inversion 1; subst; auto.
  - intros [H|H]; [by apply MAltL | by apply MAltR].
Qed.

Lemma Matches_Star_cons r c s :
  Matches (Star r) (c :: s) ↔
  ∃ s1 s2, s = s1 ++ s2 ∧ Matches r (c :: s1) ∧ Matches (Star r) s2.
Proof.
  split.
  - inversion 1; subst; eauto.
  - intros (s1 & s2 & -> & H1 & H2). by constructor.
Qed.

Lemma deriv_Matches c r : ∀ s, Matches (deriv c r) s ↔ Matches r (c :: s).
Proof.
  induction r as [| |a|r1 IH1 r2 IH2|r1 IH1 r2 IH2|r IH]; intros s; simpl.
  - split; inversion 1.
  - split; inversion 1.
  - destruct (atom_matches a c) eqn:Ha.
    + split; inversion 1; subst; [by constructor | constructor].
    + split; inversion 1; subst; congruence.
  - assert (Hcat : Matches (Cat (deriv c r1) r2) s ↔
                   ∃ s1 s2, s = s1 ++ s2 ∧ Matches r1 (c :: s1) ∧
                            Matches r2 s2).
    { rewrite Matches_Cat_inv. by setoid_rewrite IH1. }
    rewrite (Matches_Cat_inv r1 r2 (c :: s)).
    destruct (nullable r1) eqn:Hn.
    + rewrite Matches_Alt_inv, Hcat, IH2. split.
      * intros [(s1 & s2 & -> & H1 & H2) | H2].
        -- by exists (c :: s1), s2.
        -- exists [], (c :: s). by rewrite <- nullable_Matches.
      * intros (s1 & s2 & Heq & H1 & H2). destruct s1 as [|c' s1].
        -- simpl in Heq. subst s2. by right.
        -- injection Heq as <- ->. left. eauto.
    + rewrite Hcat. split.
      * intros (s1 & s2 & -> & H1 & H2). by exists (c :: s1), s2.
      * intros (s1 & s2 & Heq & H1 & H2). destruct s1 as [|c' s1].
        -- apply nullable_Matches in H1. congruence.
        -- injection Heq as <- ->. eauto.
  - rewrite !Matches_Alt_inv, IH1, IH2. tauto.
  - rewrite Matches_Cat_inv, Matches_Star_cons. by setoid_rewrite IH.
Qed.

Lemma match_here_spec r s :
  match_here r s = true ↔ ∃ s1 s2, s = s1 ++ s2 ∧ Matches r s1.
Proof.
  revert r. induction s as [|c s IH]; intros r; simpl.
  - rewrite orb_false_r, nullable_Matches. split.
    + intros H. by exists [], [].
    + intros (s1 & s2 & Heq & H). symmetry in Heq.
      by apply app_eq_nil in Heq as [-> _].
  - rewrite orb_true_iff, IH, nullable_Matches. split.
    + intros [H | (s1 & s2 & -> & H)].
      * by exists [], (c :: s).
      * exists (c :: s1), s2. by rewrite <- deriv_Matches.
    + intros (s1 & s2 & Heq & H). destruct s1 as [|c' s1].
      * by left.
      * injection Heq as <- ->. right. exists s1, s2.
        by rewrite deriv_Matches.
Qed.

(** [test] holds exactly when some substring is in the language. *)
Lemma test_spec r s :
  test r s = true ↔ ∃ s0 s1 s2, s = s0 ++ s1 ++ s2 ∧ Matches r s1.
Proof.
  induction s as [|c s IH]; cbn [test].
  - rewrite orb_false_r, match_here_spec. split.
    + intros (s1 & s2 & Heq & H). symmetry in Heq.
      apply app_eq_nil in Heq as [-> ->]. by exists [], [], [].
    + intros (s0 & s1 & s2 & Heq & H). symmetry in Heq.
      apply app_eq_nil in Heq as [_ Heq].
      apply app_eq_nil in Heq as [-> _]. by exists [], [].
  - rewrite orb_true_iff, IH, match_here_spec. split.
    + intros [(s1 & s2 & Heq & H) | (s0 & s1 & s2 & -> & H)].
      * by exists [], s1, s2.
      * by exists (c :: s0), s1, s2.
    + intros (s0 & s1 & s2 & Heq & H). destruct s0 as [|c' s0].
      * left. by exists s1, s2.
      * injection Heq as <- ->. right. eauto.
Qed.

(** A one-atom expression looks for one code unit of the class. *)
Lemma test_Atom a s :
  test (Atom a) s = true ↔ ∃ c, c ∈ s ∧ atom_matches a c = true.
Proof.
  rewrite test_spec. split.
  - intros (s0 & s1 & s2 & -> & H). inversion H; subst.
    exists c. split; [|done].
    rewrite elem_of_app, elem_of_app, elem_of_cons. auto.
  - intros (c & Hin & Hc). apply list_elem_of_split in Hin as (s0 & s2 & ->).
    exists s0, [c], s2. split; [done | by constructor].
Qed.

End RegexCorrect.

(** ** Password strength *)

Lemma bump_bounds cond k score :
  0 ≤ k → score ≤ bump cond k score ≤ score + k.
Proof. unfold bump. destruct cond; lia. Qed.

Lemma js_truthy (s : string) : truthy (js s) = negb (bool_decide (s = "")).
Proof. by destruct s. Qed.

Lemma classList_contains_add c l :
  classList_contains c (classList_add c l) = true.
Proof.
  unfold classList_contains, classList_add. apply bool_decide_eq_true.
  destruct (decide (c ∈ l)); [done|]. apply elem_of_app. right.
  by apply elem_of_cons; left.
Qed.

Lemma classList_contains_remove c l :
  classList_contains c (classList_remove c l) = false.
Proof.
  unfold classList_contains, classList_remove. apply bool_decide_eq_false.
  rewrite list_elem_of_filter. tauto.
Qed.

(** C10: for every string the score lies between 0 and 100 (every
    increment is non-negative and the total is capped by [Math.min]), and
    that score is what the listener writes to the width and to
    [aria-valuenow] of the progress bar. *)
Theorem checkPasswordStrength_percentage (password : jsstring)
    (m : StrengthMeter) :
  let strength := checkPasswordStrength password in
  0 ≤ strength ≤ 100 ∧
  indicator_valuenow (updatePasswordStrengthIndicator m strength)
  = pretty strength ∧
  indicator_width (updatePasswordStrengthIndicator m strength)
  = pretty strength +:+ "%".
Proof.
  intros strength. split.
  - subst strength. unfold checkPasswordStrength.
    set (len := Z.of_nat (length password)).
    pose proof (bump_bounds (8 <=? len) 25 0).
    set (s1 := bump (8 <=? len) 25 0) in *.
    pose proof (bump_bounds (12 <=? len) 15 s1).
    set (s2 := bump (12 <=? len) 15 s1) in *.
    pose proof (bump_bounds (test re_lower password) 10 s2).
    set (s3 := bump (test re_lower password) 10 s2) in *.
    pose proof (bump_bounds (test re_upper password) 10 s3).
    set (s4 := bump (test re_upper password) 10 s3) in *.
    pose proof (bump_bounds (test re_digit password) 10 s4).
    set (s5 := bump (test re_digit password) 10 s4) in *.
    pose proof (bump_bounds (test re_special password) 15 s5).
    set (s6 := bump (test re_special password) 15 s5) in *.
    pose proof (bump_bounds (test re_mixed_case password) 5 s6).
    set (s7 := bump (test re_mixed_case password) 5 s6) in *.
    pose proof (bump_bounds (test re_digit_letter password) 5 s7).
    set (s8 := bump (test re_digit_letter password) 5 s7) in *.
    pose proof (bump_bounds (test re_special_alnum password) 5 s8).
    set (s9 := bump (test re_special_alnum password) 5 s8) in *.
    cbv zeta. lia.
  - unfold updatePasswordStrengthIndicator.
    destruct (strength <? 30), (strength <? 60), (strength <? 80); done.
Qed.

(** C8: [Ab1!Ab1!] scores 85, at or above the threshold 80 of the last
    branch, so the indicator is labelled Strong; on an empty value the
    input listener adds [d-none] to the container of the meter. *)
Theorem strong_password_and_empty_input (m : StrengthMeter) :
  checkPasswordStrength (js "Ab1!Ab1!") = 85 ∧
  80 ≤ checkPasswordStrength (js "Ab1!Ab1!") ∧
  text_content
    (updatePasswordStrengthIndicator m
       (checkPasswordStrength (js "Ab1!Ab1!"))) = "Strong" ∧
  text_content (onPasswordInput (js "Ab1!Ab1!") m) = "Strong" ∧
  classList_contains "d-none"
    (container_classes (onPasswordInput (js "") m)) = true.
Proof.
  assert (Hs : checkPasswordStrength (js "Ab1!Ab1!") = 85)
    by (vm_compute; reflexivity).
  unfold onPasswordInput. rewrite !js_truthy, Hs. simpl.
  split_and!; try reflexivity; try lia. apply classList_contains_add.
Qed.

(** ** Action menu *)

Lemma String_app a (s t : string) : String a s +:+ t = String a (s +:+ t).
Proof. reflexivity. Qed.

Lemma prefix_append (sub s : string) :
  String.prefix sub s = true ↔ ∃ post, s = sub +:+ post.
Proof.
  revert s. induction sub as [|a sub IH]; intros [|b s]; simpl.
  - split; [by exists "" | done].
  - split; [by exists (String b s) | done].
  - split; [done | by intros [? ?]].
  - setoid_rewrite String_app.
    destruct (Ascii.ascii_dec a b) as [->|Hne].
    + rewrite IH. split; intros [post H]; exists post; congruence.
    + split; [done | intros [post H]; congruence].
Qed.

(** [includes] holds exactly when [sub] occurs somewhere in [s]. *)
Lemma includes_spec (s sub : string) :
  includes s sub = true ↔ ∃ pre post, s = pre +:+ sub +:+ post.
Proof.
  induction s as [|a s IH]; cbn [includes].
  - rewrite orb_false_r, prefix_append. split.
    + intros [post H]. by exists "", post.
    + intros (pre & post & H). destruct pre; [by exists post | done].
  - rewrite orb_true_iff, IH, prefix_append. split.
    + intros [[post H] | (pre & post & ->)].
      * by exists "", post.
      * by exists (String a pre), post.
    + intros (pre & post & H). destruct pre as [|b pre].
      * left. by exists post.
      * right. exists pre, post. rewrite String_app in H. congruence.
Qed.

Lemma actions_cases (path : string) :
  actions path =
    if includes path "/product/" then
      [exportAction; adjustPriceAction; deleteAction]
    else if includes path "/inventory/" then
      [exportAction; adjustStockAction; deleteAction]
    else [exportAction; deleteAction].
Proof.
  unfold actions.
  by destruct (includes path "/product/"), (includes path "/inventory/").
Qed.

(** C7: the menu injected on a page with path [path] lists Batch Export
    first and Batch Delete last; between them, at index 1, stands the
    price-adjust entry when the path includes [/product/], else the
    stock-adjust entry when it includes [/inventory/], else nothing (so a
    path that includes both gets the price entry only). *)
Theorem injected_menu_entries (path : string) :
  (λ i, (item_text i, item_data_action i)) <$> ba_menu (new_batch_actions path)
  = if includes path "/product/" then
      [("Batch Export", "exportSelected");
       ("Batch Adjust Price", "adjustPrice");
       ("Batch Delete", "deleteSelected")]
    else if includes path "/inventory/" then
      [("Batch Export", "exportSelected");
       ("Batch Adjust Stock", "adjustStock");
       ("Batch Delete", "deleteSelected")]
    else
      [("Batch Export", "exportSelected");
       ("Batch Delete", "deleteSelected")].
Proof.
  unfold new_batch_actions. cbn [ba_menu]. rewrite actions_cases.
  by destruct (includes path "/product/"), (includes path "/inventory/").
Qed.

(** That menu is what [setupBatchActionButtons] puts into every container
    that has no batch-actions control yet. *)
Lemma setupBatchActionButtons_injects (p : Page) (i : nat) (c : Container) :
  containers p !! i = Some c →
  batch c = [] →
  ∃ b, batch <$> containers (setupBatchActionButtons p) !! i = Some [b] ∧
       ba_menu b = ba_menu (new_batch_actions (pathname p)).
Proof.
  intros Hc Hb. unfold setupBatchActionButtons, updateBatchActionButtons.
  cbn [containers forEach_batch_actions set_containers].
  rewrite !list_lookup_fmap, Hc. simpl. rewrite Hb. simpl.
  eexists. split; [done|]. by destruct (0 <? _)%nat.
Qed.

(** ** Dispatch and submission *)

Lemma row_selected_ids_spec (r : Row) (id : string) :
  id ∈ row_selected_ids r ↔
  id = default "" (data_id r) ∧
  ∃ cb, cb ∈ row_checkboxes r ∧ checked cb = true.
Proof.
  unfold row_selected_ids. rewrite list_elem_of_fmap.
  setoid_rewrite list_elem_of_filter. split.
  - intros (cb & -> & Hc & Hin). eauto.
  - intros (-> & cb & Hin & Hc). eauto.
Qed.

(** The collected ids are the non-empty [data-id] values of the rows that
    hold a checked [.select-row]. *)
Lemma selectedIds_spec (p : Page) (id : string) :
  id ∈ selectedIds p ↔
  id ≠ "" ∧
  ∃ t r cb, t ∈ tables p ∧ r ∈ tbody t ∧ cb ∈ row_checkboxes r ∧
            checked cb = true ∧ data_id r = Some id.
Proof.
  unfold selectedIds. rewrite list_elem_of_filter, list_elem_of_bind.
  setoid_rewrite list_elem_of_bind. setoid_rewrite row_selected_ids_spec.
  split.
  - intros (Hne & t & (r & (-> & cb & Hcb & Hc) & Hr) & Ht).
    split; [done|]. exists t, r, cb. split_and!; try done.
    destruct (data_id r); naive_solver.
  - intros (Hne & t & r & cb & Ht & Hr & Hcb & Hc & Hid).
    split; [done|]. exists t. split; [|done]. exists r. split; [|done].
    rewrite Hid. eauto.
Qed.

Lemma handler_needs_selection (p : Page) (action : string) :
  reaches_handler (handleBatchAction p action) = true →
  ∃ id, id ∈ selectedIds p ∧ id ≠ "".
Proof.
  unfold handleBatchAction. destruct (selectedIds p) as [|id ids] eqn:Hids.
  - done.
  - intros _. exists id. split; [by left|].
    assert (Hin : id ∈ selectedIds p) by (rewrite Hids; by left).
    by apply selectedIds_spec in Hin as [? _].
Qed.

(** C3: with no non-empty selected id, whatever the action key, the
    dispatch ends in the warning toast and reaches none of the handlers
    that build a form or open a dialog. *)
Theorem empty_selection_warns (p : Page) (action : string) :
  selectedIds p = [] →
  handleBatchAction p action
  = Toast "Please select items to operate on first" "warning" 3000 ∧
  reaches_handler (handleBatchAction p action) = false.
Proof. intros H. unfold handleBatchAction. by rewrite H. Qed.

Lemma empty_selection_warns_witness :
  selectedIds page_without_ids = [] ∧
  handleBatchAction page_without_ids "deleteSelected"
  = Toast "Please select items to operate on first" "warning" 3000 ∧
  reaches_handler (handleBatchAction page_without_ids "deleteSelected")
  = false.
Proof.
  split; [reflexivity|].
  apply (empty_selection_warns page_without_ids "deleteSelected").
  reflexivity.
Defined.

(** C1: with ids 7 and 9 selected, [deleteSelected] opens the confirm
    dialog; once confirmed, a hidden form is posted to the path followed by
    [batch-delete/], holding the token of the page and one [selected_ids]
    input for 7 and one for 9, and nothing else. *)
Theorem delete_7_9_payload (p : Page) (token : string) :
  csrf_token p = Some token →
  selectedIds p = ["7"; "9"] →
  ∃ title text,
    handleBatchAction p "deleteSelected" = ConfirmDialog title text ["7"; "9"] ∧
    confirmDeleteSelected_then p ["7"; "9"] {| isConfirmed := true |}
    = Some (Submitted
        {| form_method := "POST";
           form_action := pathname p +:+ "batch-delete/";
           form_display := "none";
           form_inputs :=
             [ {| input_type := "hidden"; input_name := "csrfmiddlewaretoken";
                  input_value := token |};
               {| input_type := "hidden"; input_name := "selected_ids";
                  input_value := "7" |};
               {| input_type := "hidden"; input_name := "selected_ids";
                  input_value := "9" |} ] |}).
Proof.
  intros Htok Hids. eexists _, _. split.
  - unfold handleBatchAction. rewrite Hids. reflexivity.
  - unfold confirmDeleteSelected_then, deleteSelectedItems. simpl.
    by rewrite Htok.
Qed.

Lemma delete_7_9_payload_witness :
  csrf_token page_7_9 = Some "tok3n" ∧
  selectedIds page_7_9 = ["7"; "9"] ∧
  ∃ title text,
    handleBatchAction page_7_9 "deleteSelected"
    = ConfirmDialog title text ["7"; "9"] ∧
    confirmDeleteSelected_then page_7_9 ["7"; "9"] {| isConfirmed := true |}
    = Some (Submitted
        {| form_method := "POST";
           form_action := pathname page_7_9 +:+ "batch-delete/";
           form_display := "none";
           form_inputs :=
             [ hidden "csrfmiddlewaretoken" "tok3n";
               hidden "selected_ids" "7"; hidden "selected_ids" "9" ] |}).
Proof.
  split; [reflexivity|]. split; [reflexivity|].
  apply (delete_7_9_payload page_7_9 "tok3n"); reflexivity.
Defined.

(** C4: for type [percentage], value [10] and field [price] the
    price-adjustment form is posted to the path followed by
    [batch-adjust-price/]; its inputs are the token, [adjustment_type],
    [adjustment_value], [adjustment_field] and one [selected_ids] per id, in
    this order and under these names.  It holds for every list of ids, the
    non-empty ones included, and the confirm button of the dialog submits
    the same form when the dialog form is valid. *)
Theorem price_adjustment_payload (p : Page) (token : string)
    (ids : list string) :
  csrf_token p = Some token →
  ∃ f,
    submitPriceAdjustment p ids "percentage" "10" "price" = Submitted f ∧
    confirmAdjustPrice_click p ids
      {| checkValidity := true; adjustmentType := "percentage";
         adjustmentValue := "10"; adjustField := "price" |} = Submitted f ∧
    form_method f = "POST" ∧
    form_action f = pathname p +:+ "batch-adjust-price/" ∧
    form_inputs f
    = [ hidden "csrfmiddlewaretoken" token;
        hidden "adjustment_type" "percentage";
        hidden "adjustment_value" "10";
        hidden "adjustment_field" "price" ]
      ++ (hidden "selected_ids" <$> ids) ∧
    input_name <$> form_inputs f
    = [ "csrfmiddlewaretoken"; "adjustment_type"; "adjustment_value";
        "adjustment_field" ] ++ replicate (length ids) "selected_ids" ∧
    input_value <$> drop 4 (form_inputs f) = ids.
Proof.
  intros Htok. eexists. unfold confirmAdjustPrice_click.
  cbn [checkValidity adjustmentType adjustmentValue adjustField].
  unfold submitPriceAdjustment. rewrite Htok.
  split_and!; try reflexivity; cbn [form_inputs].
  - cbn [fmap list_fmap app input_name hidden]. do 4 f_equal.
    induction ids as [|id ids IH]; [done|]. simpl. by f_equal.
  - cbn [drop]. induction ids as [|id ids IH]; [done|]. simpl. by f_equal.
Qed.

Lemma price_adjustment_payload_witness :
  csrf_token page_7_9 = Some "tok3n" ∧
  ∃ f,
    submitPriceAdjustment page_7_9 ["7"; "9"] "percentage" "10" "price"
    = Submitted f ∧
    confirmAdjustPrice_click page_7_9 ["7"; "9"]
      {| checkValidity := true; adjustmentType := "percentage";
         adjustmentValue := "10"; adjustField := "price" |} = Submitted f ∧
    form_method f = "POST" ∧
    form_action f = pathname page_7_9 +:+ "batch-adjust-price/" ∧
    form_inputs f
    = [ hidden "csrfmiddlewaretoken" "tok3n";
        hidden "adjustment_type" "percentage";
        hidden "adjustment_value" "10";
        hidden "adjustment_field" "price" ]
      ++ (hidden "selected_ids" <$> ["7"; "9"]) ∧
    input_name <$> form_inputs f
    = [ "csrfmiddlewaretoken"; "adjustment_type"; "adjustment_value";
        "adjustment_field" ] ++ replicate 2 "selected_ids" ∧
    input_value <$> drop 4 (form_inputs f) = ["7"; "9"].
Proof.
  split; [reflexivity|].
  apply (price_adjustment_payload page_7_9 "tok3n" ["7"; "9"]). reflexivity.
Defined.

(** ** Structure of the page under the updates *)

Lemma row_checkboxes_map_row f r :
  row_checkboxes (map_row f r) = f <$> row_checkboxes r.
Proof.
  unfold row_checkboxes, map_row. cbn [cells].
  induction (cells r) as [|[cb|s] cs IH]; [done| |]; simpl;
    [f_equal|]; exact IH.
Qed.

Lemma select_rows_forEach f t :
  select_rows (forEach_select_row f t) = f <$> select_rows t.
Proof.
  unfold select_rows, forEach_select_row. cbn [tbody].
  induction (tbody t) as [|r rs IH]; [done|].
  rewrite fmap_cons, !bind_cons, fmap_app, IH. f_equal.
  apply row_checkboxes_map_row.
Qed.

Lemma tbody_update_selectAll f t : tbody (update_selectAll f t) = tbody t.
Proof.
  unfold update_selectAll.
  destruct (thead t) as [|[|[] ?] ?]; done.
Qed.

Lemma select_rows_update_selectAll f t :
  select_rows (update_selectAll f t) = select_rows t.
Proof. unfold select_rows. by rewrite tbody_update_selectAll. Qed.

Lemma selectAllCheckbox_update f t :
  selectAllCheckbox (update_selectAll f t) = f <$> selectAllCheckbox t.
Proof.
  destruct t as [[|[|[] ?] ?] rows]; done.
Qed.

Lemma select_rows_checked_refresh t :
  select_rows_checked (refresh_selectAll t) = select_rows_checked t.
Proof.
  unfold refresh_selectAll, select_rows_checked.
  by rewrite select_rows_update_selectAll.
Qed.

(** Setting every row checkbox to [v] leaves [N] or no checked ones. *)
Lemma checked_after_set v (l : list Checkbox) :
  length (filter (λ cb, checked cb = true) (set_checked v <$> l))
  = if v then length l else 0%nat.
Proof.
  induction l as [|cb l IH]; [by destruct v|].
  rewrite fmap_cons, filter_cons. cbn [set_checked checked].
  destruct v; case_decide; try done; simpl; by rewrite IH.
Qed.

Lemma total_checked_split (p : Page) (ti : nat) (t : Table) :
  tables p !! ti = Some t →
  total_checked p = (checked_count t + checked_elsewhere ti p)%nat.
Proof.
  intros Ht. unfold total_checked, checked_elsewhere,
    document_select_rows_checked, checked_count.
  rewrite <- (take_drop_middle _ _ _ Ht) at 1.
  rewrite bind_app, bind_cons, !length_app. lia.
Qed.

Lemma checked_elsewhere_alter f ti (p : Page) :
  checked_elsewhere ti (set_tables (alter f ti (tables p)) p)
  = checked_elsewhere ti p.
Proof.
  unfold checked_elsewhere. cbn [tables set_tables].
  by rewrite take_alter_ge, drop_alter_lt by lia.
Qed.

Lemma total_checked_alter f ti (p : Page) :
  (∀ t, select_rows_checked (f t) = select_rows_checked t) →
  total_checked (set_tables (alter f ti (tables p)) p) = total_checked p.
Proof.
  intros Hf. destruct (tables p !! ti) as [t|] eqn:Ht.
  - rewrite (total_checked_split p ti t Ht).
    rewrite (total_checked_split _ ti (f t)).
    + rewrite checked_elsewhere_alter. unfold checked_count. by rewrite Hf.
    + cbn [tables set_tables]. by rewrite list_lookup_alter_eq, Ht.
  - unfold total_checked, document_select_rows_checked.
    cbn [tables set_tables].
    rewrite (list_alter_ext f id (tables p) (tables p) ti); [|congruence|done].
    by rewrite list_alter_id.
Qed.

(** The total is the sum of the per-table counts. *)
Lemma total_checked_sum (p : Page) :
  total_checked p = sum_list (checked_count <$> tables p).
Proof.
  unfold total_checked, document_select_rows_checked.
  induction (tables p) as [|t ts IH]; [done|].
  rewrite bind_cons, length_app, IH. done.
Qed.

Lemma selectedIds_by_table (p : Page) :
  selectedIds p = tables p ≫= table_selected_ids.
Proof.
  unfold selectedIds. induction (tables p) as [|t ts IH]; [done|].
  rewrite !bind_cons, filter_app, IH. done.
Qed.

(** ** The count badge *)

Lemma updateBatchActionButtons_show (p : Page) :
  updateBatchActionButtons p
  = forEach_batch_actions (show_count (total_checked p)) p.
Proof. reflexivity. Qed.

Lemma document_batch_actions_forEach f (p : Page) :
  document_batch_actions (forEach_batch_actions f p)
  = f <$> document_batch_actions p.
Proof.
  unfold document_batch_actions, forEach_batch_actions.
  cbn [containers set_containers].
  induction (containers p) as [|c cs IH]; [done|].
  by rewrite fmap_cons, !bind_cons, fmap_app, IH.
Qed.

Lemma forEach_batch_actions_twice f (p : Page) :
  (∀ b, f (f b) = f b) →
  forEach_batch_actions f (forEach_batch_actions f p)
  = forEach_batch_actions f p.
Proof.
  intros Hf. unfold forEach_batch_actions, set_containers.
  cbn [containers pathname csrf_token tables]. f_equal.
  rewrite <- list_fmap_compose. apply list_fmap_ext. intros _ c _.
  simpl. f_equal. rewrite <- list_fmap_compose.
  apply list_fmap_ext. intros _ b _. apply Hf.
Qed.

Lemma classList_add_idem c l :
  classList_add c (classList_add c l) = classList_add c l.
Proof.
  unfold classList_add. destruct (decide (c ∈ l)) as [Hin|Hin].
  - by rewrite decide_True.
  - rewrite decide_True; [done|].
    apply elem_of_app. right. by apply elem_of_cons; left.
Qed.

Lemma classList_remove_idem c l :
  classList_remove c (classList_remove c l) = classList_remove c l.
Proof.
  unfold classList_remove. induction l as [|x l IH]; [done|].
  rewrite (filter_cons _ x l). case_decide; [|done].
  rewrite (filter_cons _ x (filter _ l)), decide_True by done.
  f_equal. exact IH.
Qed.

Lemma show_count_idem n b : show_count n (show_count n b) = show_count n b.
Proof.
  unfold show_count. destruct (0 <? n)%nat.
  - unfold set_selected_count, set_ba_classes. cbn [ba_classes ba_menu].
    by rewrite classList_remove_idem.
  - unfold set_ba_classes. cbn [ba_classes selected_count ba_menu].
    by rewrite classList_add_idem.
Qed.

Lemma show_count_badge_after n b : badge_after n b (show_count n b).
Proof.
  unfold badge_after, show_count, ba_hidden. destruct (0 <? n)%nat.
  - cbn [set_selected_count set_ba_classes ba_classes selected_count].
    by rewrite classList_contains_remove.
  - cbn [set_ba_classes ba_classes selected_count].
    by rewrite classList_contains_add.
Qed.

Lemma badge_after_in_step n b b' : badge_after n b b' → badge_in_step n b'.
Proof.
  unfold badge_after, badge_in_step. destruct (0 <? n)%nat; tauto.
Qed.

Lemma updateBatchActionButtons_idem (p : Page) :
  updateBatchActionButtons (updateBatchActionButtons p)
  = updateBatchActionButtons p.
Proof.
  rewrite !updateBatchActionButtons_show.
  change (total_checked (forEach_batch_actions _ p)) with (total_checked p).
  apply forEach_batch_actions_twice, show_count_idem.
Qed.

(** What the update does to each control: shown with the document-wide
    count in the badge, or hidden with the badge text untouched. *)
Lemma updateBatchActionButtons_badges (p : Page) :
  Forall2 (badge_after (total_checked p))
    (document_batch_actions p)
    (document_batch_actions (updateBatchActionButtons p)).
Proof.
  rewrite updateBatchActionButtons_show, document_batch_actions_forEach.
  apply Forall2_fmap_r, Forall_Forall2_diag, Forall_forall.
  intros b _. apply show_count_badge_after.
Qed.

(** ** The listeners run once or several times *)

Lemma iter_idem {A} (f : A → A) (n : nat) (x : A) :
  (∀ y, f (f y) = f y) → (0 < n)%nat → Nat.iter n f x = f x.
Proof.
  intros Hf Hn. destruct n as [|n]; [lia|]. clear Hn.
  induction n as [|n IH]; [done|].
  change (Nat.iter (S (S n)) f x) with (f (Nat.iter (S n) f x)).
  by rewrite IH.
Qed.

Lemma refresh_selectAll_idem t :
  refresh_selectAll (refresh_selectAll t) = refresh_selectAll t.
Proof.
  unfold refresh_selectAll at 1.
  rewrite select_rows_checked_refresh.
  unfold refresh_selectAll at 1. rewrite select_rows_update_selectAll.
  unfold refresh_selectAll.
  destruct t as [[|[|[] ?] ?] rows]; done.
Qed.

Lemma alter_twice {A} (f : A → A) i (l : list A) :
  (∀ x, f (f x) = f x) → alter f i (alter f i l) = alter f i l.
Proof.
  intros Hf. rewrite list_alter_alter_eq.
  apply list_alter_ext; [|done]. intros x _. apply Hf.
Qed.

Lemma onRowChange_idem ti (p : Page) :
  onRowChange ti (onRowChange ti p) = onRowChange ti p.
Proof.
  unfold onRowChange.
  set (p1 := updateBatchActionButtons p).
  set (p2 := set_tables (alter refresh_selectAll ti (tables p1)) p1).
  assert (Hp2 : updateBatchActionButtons p2 = p2).
  { rewrite updateBatchActionButtons_show. subst p2.
    rewrite total_checked_alter by apply select_rows_checked_refresh.
    subst p1. rewrite updateBatchActionButtons_show.
    change (total_checked (forEach_batch_actions _ p)) with (total_checked p).
    change (forEach_batch_actions ?f (set_tables ?ts ?q))
      with (set_tables ts (forEach_batch_actions f q)).
    by rewrite forEach_batch_actions_twice by apply show_count_idem. }
  rewrite Hp2. subst p2. cbn [tables set_tables].
  rewrite alter_twice by apply refresh_selectAll_idem. done.
Qed.

Lemma set_tables_same (p : Page) : set_tables (tables p) p = p.
Proof. by destruct p. Qed.

Lemma forEach_select_row_idem f t :
  (∀ cb, f (f cb) = f cb) →
  forEach_select_row f (forEach_select_row f t) = forEach_select_row f t.
Proof.
  intros Hf. unfold forEach_select_row. cbn [thead tbody]. f_equal.
  rewrite <- list_fmap_compose. apply list_fmap_ext. intros _ r _.
  unfold map_row. simpl. f_equal. rewrite <- list_fmap_compose.
  apply list_fmap_ext. intros _ [cb|s] _; simpl; by rewrite ?Hf.
Qed.

Lemma onSelectAllChange_idem ti (p : Page) :
  onSelectAllChange ti (onSelectAllChange ti p) = onSelectAllChange ti p.
Proof.
  unfold onSelectAllChange at 2.
  destruct (tables p !! ti ≫= selectAllCheckbox) as [this|] eqn:E.
  - set (F := forEach_select_row (set_checked (checked this))).
    set (p2 := updateBatchActionButtons _).
    assert (Ht : tables p2 = alter F ti (tables p)) by done.
    unfold onSelectAllChange. rewrite Ht, list_lookup_alter_eq.
    destruct (tables p !! ti) as [t|]; [|done]. simpl in E |- *.
    change (selectAllCheckbox (F t)) with (selectAllCheckbox t). rewrite E.
    fold F. rewrite alter_twice by (intros; by apply forEach_select_row_idem).
    rewrite <- Ht, set_tables_same. subst p2.
    apply updateBatchActionButtons_idem.
  - unfold onSelectAllChange. by rewrite E.
Qed.

(** ** Augmentation *)

Lemma augment_marked t : hasCheckboxColumn t = true → augment t = t.
Proof. intros H. unfold augment. by rewrite H. Qed.

Lemma augment_no_header_row t : thead t = [] → augment t = t.
Proof.
  intros H. unfold augment. rewrite H. by destruct (hasCheckboxColumn t).
Qed.

Lemma hasCheckboxColumn_augment t :
  thead t ≠ [] → hasCheckboxColumn (augment t) = true.
Proof.
  intros H. unfold augment.
  destruct (hasCheckboxColumn t) eqn:Hc; [done|].
  destruct (thead t) as [|headerRow trs]; done.
Qed.

Lemma augment_idem t : augment (augment t) = augment t.
Proof.
  destruct (thead t) as [|headerRow trs] eqn:Hh.
  - rewrite (augment_no_header_row t Hh). apply (augment_no_header_row t Hh).
  - apply augment_marked, hasCheckboxColumn_augment. by rewrite Hh.
Qed.

(** Augmentation wires the table it changes. *)
Lemma augment_wired t :
  hasCheckboxColumn t = false → thead t ≠ [] → wired (augment t) = true.
Proof.
  intros Hc Hh. unfold augment. rewrite Hc.
  destruct (thead t) as [|headerRow trs]; [done|].
  unfold wired. cbn [selectAllCheckbox forEach_select_row update_selectAll
                     thead addEventListener listeners new_checkbox].
  apply andb_true_iff. split; [done|].
  rewrite select_rows_forEach.
  induction (select_rows _) as [|cb cbs IH]; [done|]. exact IH.
Qed.

(** C6: a table that already shows the marker header comes out of
    [setupBatchSelection] as it went in (no further checkbox column, in
    the header or in any row), and running the set-up a second time
    changes nothing. *)
Theorem setupBatchSelection_idempotent (p : Page) (i : nat) (t : Table) :
  tables p !! i = Some t →
  hasCheckboxColumn t = true →
  tables (setupBatchSelection p) !! i = Some t ∧
  setupBatchSelection (setupBatchSelection p) = setupBatchSelection p.
Proof.
  intros Ht Hc. unfold setupBatchSelection. cbn [tables set_tables]. split.
  - rewrite list_lookup_fmap, Ht. simpl. by rewrite (augment_marked t Hc).
  - unfold set_tables. cbn [pathname csrf_token containers]. f_equal.
    rewrite <- list_fmap_compose. apply list_fmap_ext. intros _ t' _.
    apply augment_idem.
Qed.

Lemma setupBatchSelection_idempotent_witness :
  let p := setupBatchSelection (server_page "/product/" [["7"; "9"]]) in
  let t := augment (plain_table ["7"; "9"]) in
  tables p !! 0%nat = Some t ∧
  hasCheckboxColumn t = true ∧
  tables (setupBatchSelection p) !! 0%nat = Some t ∧
  setupBatchSelection (setupBatchSelection p) = setupBatchSelection p.
Proof.
  intros p t. split; [reflexivity|]. split; [reflexivity|].
  apply (setupBatchSelection_idempotent p 0 t); reflexivity.
Defined.

(** ** Row checkboxes and the select-all state *)

Lemma row_checkbox_at_elem ri ci t cb :
  row_checkbox_at ri ci t = Some cb → cb ∈ select_rows t.
Proof.
  unfold row_checkbox_at, select_rows. intros H.
  destruct (tbody t !! ri) as [r|] eqn:Hr; [|done]. simpl in H.
  destruct (cells r !! ci) as [c|] eqn:Hc; [|done]. simpl in H.
  destruct c as [cb'|]; [|done]. injection H as ->.
  apply list_elem_of_bind. exists r. split.
  - unfold row_checkboxes. apply list_elem_of_omap.
    exists (SelectCell cb). split; [|done]. by eapply list_elem_of_lookup_2.
  - by eapply list_elem_of_lookup_2.
Qed.

Lemma wired_listeners t cb :
  wired t = true → cb ∈ select_rows t → (0 < listeners cb)%nat.
Proof.
  unfold wired. destruct (selectAllCheckbox t); [|done].
  intros [_ H]%andb_true_iff Hin.
  rewrite forallb_forall in H. apply Nat.ltb_lt, H.
  by apply list_elem_of_In.
Qed.

Lemma wired_selectAll t :
  wired t = true →
  ∃ h, selectAllCheckbox t = Some h ∧ (0 < listeners h)%nat.
Proof.
  unfold wired. destruct (selectAllCheckbox t) as [h|]; [|done].
  intros [H _]%andb_true_iff. exists h. split; [done|].
  by apply Nat.ltb_lt.
Qed.

(** What the row listener leaves in the select-all checkbox. *)
Lemma refresh_selectAll_header t h0 :
  selectAllCheckbox t = Some h0 →
  ∃ h, selectAllCheckbox (refresh_selectAll t) = Some h ∧
       header_in_step (refresh_selectAll t) h.
Proof.
  intros Hh0.
  assert (Hrows : select_rows (refresh_selectAll t) = select_rows t).
  { unfold refresh_selectAll. apply select_rows_update_selectAll. }
  unfold header_in_step, checked_count.
  rewrite select_rows_checked_refresh, Hrows.
  unfold refresh_selectAll. rewrite selectAllCheckbox_update, Hh0.
  eexists. split; [done|].
  cbn [checked indeterminate set_checked set_indeterminate].
  pose proof (length_filter (λ cb, checked cb = true) (select_rows t)) as Hle.
  fold (select_rows_checked t) in Hle. split.
  - destruct (Nat.eqb_spec (length (select_rows t))
                (length (select_rows_checked t)));
      symmetry; [apply bool_decide_eq_true | apply bool_decide_eq_false]; lia.
  - destruct (Nat.ltb_spec 0 (length (select_rows_checked t)));
      destruct (Nat.ltb_spec (length (select_rows_checked t))
                  (length (select_rows t)));
      symmetry; simpl;
      (apply bool_decide_eq_true || apply bool_decide_eq_false); lia.
Qed.

(** The tables after a click on a row checkbox with a listener. *)
Lemma clickRowCheckbox_tables (p : Page) ti ri ci t cb :
  tables p !! ti = Some t →
  row_checkbox_at ri ci t = Some cb →
  (0 < listeners cb)%nat →
  tables (clickRowCheckbox ti ri ci p)
  = alter refresh_selectAll ti
      (alter (alter_row_checkbox toggle ri ci) ti (tables p)).
Proof.
  intros Ht Hcb Hl. unfold clickRowCheckbox. rewrite Ht. simpl. rewrite Hcb.
  by rewrite iter_idem by (done || apply onRowChange_idem).
Qed.

Lemma clickRowCheckbox_table (p : Page) ti ri ci t cb :
  tables p !! ti = Some t →
  row_checkbox_at ri ci t = Some cb →
  (0 < listeners cb)%nat →
  tables (clickRowCheckbox ti ri ci p) !! ti
  = Some (refresh_selectAll (alter_row_checkbox toggle ri ci t)).
Proof.
  intros Ht Hcb Hl. rewrite (clickRowCheckbox_tables p ti ri ci t cb) by done.
  by rewrite !list_lookup_alter_eq, Ht.
Qed.

(** C2: once the change event of a row checkbox of an augmented table has
    been handled, the select-all checkbox of that table is checked exactly
    when all its row checkboxes are, and indeterminate exactly when some
    but not all are; the rows are as the click left them. *)
Theorem header_tracks_rows (p : Page) (ti ri ci : nat) (t : Table)
    (cb : Checkbox) :
  tables p !! ti = Some t →
  wired t = true →
  row_checkbox_at ri ci t = Some cb →
  ∃ t' h,
    tables (clickRowCheckbox ti ri ci p) !! ti = Some t' ∧
    tbody t' = tbody (alter_row_checkbox toggle ri ci t) ∧
    selectAllCheckbox t' = Some h ∧
    checked h = bool_decide (checked_count t' = length (select_rows t')) ∧
    indeterminate h
    = bool_decide (0 < checked_count t' < length (select_rows t'))%nat.
Proof.
  intros Ht Hw Hcb.
  destruct (wired_selectAll t Hw) as (h0 & Hh0 & _).
  pose proof (wired_listeners t cb Hw (row_checkbox_at_elem _ _ _ _ Hcb)) as Hl.
  set (t1 := alter_row_checkbox toggle ri ci t).
  destruct (refresh_selectAll_header t1 h0 Hh0) as (h & Hh & Hck & Hind).
  exists (refresh_selectAll t1), h. split_and!; try done.
  - by apply (clickRowCheckbox_table p ti ri ci t cb).
  - unfold refresh_selectAll. by rewrite tbody_update_selectAll.
Qed.

Lemma header_tracks_rows_witness :
  let p := setupBatchOperations (server_page "/product/" [["7"; "9"]]) in
  let t := augment (plain_table ["7"; "9"]) in
  tables p !! 0%nat = Some t ∧ wired t = true ∧
  row_checkbox_at 0 0 t = Some (addEventListener new_checkbox) ∧
  ∃ t' h,
    tables (clickRowCheckbox 0 0 0 p) !! 0%nat = Some t' ∧
    tbody t' = tbody (alter_row_checkbox toggle 0 0 t) ∧
    selectAllCheckbox t' = Some h ∧
    checked h = bool_decide (checked_count t' = length (select_rows t')) ∧
    indeterminate h
    = bool_decide (0 < checked_count t' < length (select_rows t'))%nat.
Proof.
  intros p t. split; [reflexivity|]. split; [reflexivity|].
  split; [reflexivity|].
  apply (header_tracks_rows p 0 0 0 t (addEventListener new_checkbox));
    reflexivity.
Defined.

(** ** The header toggle *)

Lemma in_step_after_update (q : Page) :
  Forall (badge_in_step (total_checked q))
         (document_batch_actions (updateBatchActionButtons q)).
Proof.
  rewrite updateBatchActionButtons_show, document_batch_actions_forEach.
  apply Forall_fmap, Forall_forall. intros b _.
  eapply badge_after_in_step, show_count_badge_after.
Qed.

(** The page after a click on a select-all checkbox with a listener. *)
Lemma clickSelectAll_page (p : Page) ti t h :
  tables p !! ti = Some t →
  selectAllCheckbox t = Some h →
  (0 < listeners h)%nat →
  clickSelectAll ti p
  = updateBatchActionButtons
      (set_tables
         (alter (forEach_select_row (set_checked (negb (checked h)))) ti
            (alter (update_selectAll toggle) ti (tables p))) p).
Proof.
  intros Ht Hh Hl. unfold clickSelectAll. rewrite Ht. simpl. rewrite Hh.
  rewrite iter_idem by (done || apply onSelectAllChange_idem).
  unfold onSelectAllChange. cbn [tables set_tables].
  rewrite list_lookup_alter_eq, Ht. simpl.
  by rewrite selectAllCheckbox_update, Hh.
Qed.

(** C5, as the code has it: the toggle of the select-all checkbox of an
    augmented table gives its new value to every row checkbox of that
    table; the number of checked row checkboxes in the document is then N
    or 0 for this table plus those checked in the other tables, and every
    batch-actions control shows that total when it is positive and is
    hidden when it is 0. *)
Theorem select_all_toggle (p : Page) (ti : nat) (t : Table) (h : Checkbox) :
  tables p !! ti = Some t →
  wired t = true →
  selectAllCheckbox t = Some h →
  let v := negb (checked h) in
  let p' := clickSelectAll ti p in
  let total :=
    ((if v then length (select_rows t) else 0) + checked_elsewhere ti p)%nat in
  ∃ t',
    tables p' !! ti = Some t' ∧
    selectAllCheckbox t' = Some (toggle h) ∧
    select_rows t' = set_checked v <$> select_rows t ∧
    total_checked p' = total ∧
    Forall (badge_in_step total) (document_batch_actions p').
Proof.
  intros Ht Hw Hh v p' total.
  destruct (wired_selectAll t Hw) as (h0 & Hh0 & Hl).
  assert (h0 = h) as -> by congruence.
  subst p'. rewrite (clickSelectAll_page p ti t h Ht Hh Hl). fold v.
  set (F := forEach_select_row (set_checked v)).
  set (p3 := set_tables _ p).
  assert (Ht3 : tables p3 !! ti = Some (F (update_selectAll toggle t))).
  { subst p3. cbn [tables set_tables].
    by rewrite !list_lookup_alter_eq, Ht. }
  assert (Hrows : select_rows (F (update_selectAll toggle t))
                  = set_checked v <$> select_rows t).
  { subst F. by rewrite select_rows_forEach, select_rows_update_selectAll. }
  assert (Htotal : total_checked p3 = total).
  { rewrite (total_checked_split p3 ti _ Ht3). subst p3.
    rewrite list_alter_alter_eq, checked_elsewhere_alter.
    unfold checked_count, select_rows_checked.
    by rewrite Hrows, checked_after_set. }
  exists (F (update_selectAll toggle t)). split_and!.
  - done.
  - change (selectAllCheckbox (F (update_selectAll toggle t)))
      with (selectAllCheckbox (update_selectAll toggle t)).
    by rewrite selectAllCheckbox_update, Hh.
  - done.
  - done.
  - rewrite <- Htotal. apply (in_step_after_update p3).
Qed.

Lemma select_all_toggle_witness :
  let p := page_two_tables in
  let t := augment (plain_table ["7"; "9"]) in
  let h := addEventListener new_checkbox in
  tables p !! 0%nat = Some t ∧ wired t = true ∧ selectAllCheckbox t = Some h ∧
  ∃ t',
    tables (clickSelectAll 0 p) !! 0%nat = Some t' ∧
    selectAllCheckbox t' = Some (toggle h) ∧
    select_rows t' = set_checked true <$> select_rows t ∧
    total_checked (clickSelectAll 0 p) = 3%nat ∧
    Forall (badge_in_step 3) (document_batch_actions (clickSelectAll 0 p)).
Proof.
  intros p t h. split; [reflexivity|]. split; [reflexivity|].
  split; [reflexivity|].
  apply (select_all_toggle p 0 t h); reflexivity.
Defined.

(** C5 as it is worded fails, in two ways.  With a row ticked in another
    table, ticking the header of a table of two rows makes the badge read
    3, not 2.  And on a page with a single table, after both rows were
    ticked through the header and the header is unticked again, the
    control is hidden but its badge still reads 2, not 0. *)
Lemma header_toggle_claim_fails :
  ¬ header_toggle_claim page_two_tables 0 ∧
  ¬ header_toggle_claim page_all_ticked 0.
Proof.
  split; intros H.
  - destruct (H _ eq_refl eq_refl) as (t' & h' & Ht' & Hh' & _ & Hb).
    vm_compute in Ht'. injection Ht' as <-.
    vm_compute in Hh'. injection Hh' as <-.
    vm_compute in Hb. inversion Hb as [|b bs Hcount _]. discriminate Hcount.
  - destruct (H _ eq_refl eq_refl) as (t' & h' & Ht' & Hh' & _ & Hb).
    vm_compute in Ht'. injection Ht' as <-.
    vm_compute in Hh'. injection Hh' as <-.
    vm_compute in Hb. inversion Hb as [|b bs [Hcount _] _].
    discriminate Hcount.
Qed.

(** The badges in these two runs, and after unticking the header of the
    first table while the row of the second stays ticked: hidden or not,
    and the text. *)
Example header_toggle_badges :
  badges (clickSelectAll 0 page_two_tables) = [(false, "3")] ∧
  badges (clickSelectAll 0 page_all_ticked) = [(true, "2")] ∧
  badges (run [ClickSelectAll 0; ClickSelectAll 0] page_two_tables)
  = [(false, "1")].
Proof. by vm_compute. Qed.

(** ** Tables side by side *)

Lemma iter_frame {A B} (f : A → A) (g : A → B) (n : nat) (x : A) :
  (∀ y, g (f y) = g y) → g (Nat.iter n f x) = g x.
Proof.
  intros Hf. induction n as [|n IH]; [done|]. simpl. by rewrite Hf.
Qed.

Lemma onRowChange_frame ti tj (p : Page) :
  ti ≠ tj → tables (onRowChange ti p) !! tj = tables p !! tj.
Proof.
  intros Hne. unfold onRowChange. cbn [tables set_tables].
  by rewrite list_lookup_alter_ne.
Qed.

Lemma onSelectAllChange_frame ti tj (p : Page) :
  ti ≠ tj → tables (onSelectAllChange ti p) !! tj = tables p !! tj.
Proof.
  intros Hne. unfold onSelectAllChange.
  destruct (tables p !! ti ≫= selectAllCheckbox); [|done].
  cbn [tables set_tables updateBatchActionButtons forEach_batch_actions
       set_containers].
  by rewrite list_lookup_alter_ne.
Qed.

(** An event in one table leaves every other table as it was. *)
Lemma step_frame (p : Page) (e : Event) (tj : nat) :
  event_table e ≠ tj → tables (step p e) !! tj = tables p !! tj.
Proof.
  intros Hne. destruct e as [ti|ti ri ci]; simpl in Hne |- *.
  - unfold clickSelectAll.
    destruct (tables p !! ti ≫= selectAllCheckbox) as [cb|]; [|done].
    rewrite (iter_frame _ (λ q, tables q !! tj))
      by (intros; by apply onSelectAllChange_frame).
    cbn [tables set_tables]. by rewrite list_lookup_alter_ne.
  - unfold clickRowCheckbox.
    destruct (tables p !! ti ≫= row_checkbox_at ri ci) as [cb|]; [|done].
    rewrite (iter_frame _ (λ q, tables q !! tj))
      by (intros; by apply onRowChange_frame).
    cbn [tables set_tables]. by rewrite list_lookup_alter_ne.
Qed.

Lemma onRowChange_in_step ti (q : Page) :
  Forall (badge_in_step (total_checked (onRowChange ti q)))
         (document_batch_actions (onRowChange ti q)).
Proof.
  unfold onRowChange.
  rewrite total_checked_alter by apply select_rows_checked_refresh.
  apply (in_step_after_update q).
Qed.

Lemma onSelectAllChange_in_step ti (q : Page) :
  is_Some (tables q !! ti ≫= selectAllCheckbox) →
  Forall (badge_in_step (total_checked (onSelectAllChange ti q)))
         (document_batch_actions (onSelectAllChange ti q)).
Proof.
  intros [this Hthis]. unfold onSelectAllChange. rewrite Hthis.
  set (q' := set_tables _ q). exact (in_step_after_update q').
Qed.

(** After an event on a checkbox that carries a listener, every control
    is in step with the document-wide count. *)
Lemma step_in_step (p : Page) (e : Event) :
  (0 < event_listeners p e)%nat →
  Forall (badge_in_step (total_checked (step p e)))
         (document_batch_actions (step p e)).
Proof.
  destruct e as [ti|ti ri ci]; simpl.
  - unfold clickSelectAll.
    destruct (tables p !! ti) as [t|] eqn:Ht; simpl; [|lia].
    destruct (selectAllCheckbox t) as [cb|] eqn:Hcb; simpl; [|lia].
    intros Hl. rewrite iter_idem by (done || apply onSelectAllChange_idem).
    apply onSelectAllChange_in_step. cbn [tables set_tables].
    rewrite list_lookup_alter_eq, Ht. simpl.
    rewrite selectAllCheckbox_update, Hcb. by eexists.
  - unfold clickRowCheckbox.
    destruct (tables p !! ti ≫= row_checkbox_at ri ci) as [cb|]; simpl; [|lia].
    intros Hl. rewrite iter_idem by (done || apply onRowChange_idem).
    apply onRowChange_in_step.
Qed.

(** C9, as the code has it: a click on a checkbox of one table (row or
    header, with its listener) leaves the row checkboxes and the header of
    every other table unchanged; the badge and the dispatch are
    document-wide: every control is in step with the sum of the checked
    counts of all tables, and the dispatched ids are those of the checked
    rows of all tables, table after table. *)
Theorem selection_frame_and_document_scope (p : Page) (e : Event) (tj : nat) :
  event_table e ≠ tj →
  (0 < event_listeners p e)%nat →
  tables (step p e) !! tj = tables p !! tj ∧
  Forall (badge_in_step (sum_list (checked_count <$> tables (step p e))))
         (document_batch_actions (step p e)) ∧
  selectedIds (step p e) = tables (step p e) ≫= table_selected_ids.
Proof.
  intros Hne Hl. split_and!.
  - by apply step_frame.
  - rewrite <- total_checked_sum. by apply step_in_step.
  - apply selectedIds_by_table.
Qed.

Lemma selection_frame_and_document_scope_witness :
  let p := page_two_tables in
  let e := ClickRow 0 0 0 in
  event_table e ≠ 1%nat ∧ (0 < event_listeners p e)%nat ∧
  tables (step p e) !! 1%nat = tables p !! 1%nat ∧
  Forall (badge_in_step (sum_list (checked_count <$> tables (step p e))))
         (document_batch_actions (step p e)) ∧
  selectedIds (step p e) = tables (step p e) ≫= table_selected_ids.
Proof.
  intros p e. split; [discriminate|]. split; [vm_compute; lia|].
  apply (selection_frame_and_document_scope p e 1);
    [discriminate | vm_compute; lia].
Defined.

(** C9 as it is worded fails: with the row of the second table ticked,
    ticking row 7 of the first table makes the badge read 2 although that
    table has one ticked row, and the dispatch collects 7 and 3. *)
Lemma selection_crosses_tables :
  ¬ per_table_claim page_two_tables (ClickRow 0 0 0).
Proof.
  intros [_ H]. destruct (H _ eq_refl) as [_ Hids].
  vm_compute in Hids. discriminate Hids.
Qed.

Example badge_counts_every_table :
  badges (step page_two_tables (ClickRow 0 0 0)) = [(false, "2")] ∧
  selectedIds (step page_two_tables (ClickRow 0 0 0)) = ["7"; "3"] ∧
  badges (step (setupBatchOperations
                  (server_page "/product/" [["7"; "9"]; ["3"]]))
               (ClickRow 0 0 0)) = [(false, "1")].
Proof. by vm_compute. Qed.

(** ** Every state that a page reaches *)

Lemma forallb_listeners (l : list Checkbox) :
  forallb (λ cb, (0 <? listeners cb)%nat) l
  = forallb (λ n, (0 <? n)%nat) (listeners <$> l).
Proof. induction l as [|cb l IH]; [done|]. simpl. by rewrite IH. Qed.

(** Being wired depends on the listeners only. *)
Lemma wired_ext t t' :
  listeners <$> selectAllCheckbox t = listeners <$> selectAllCheckbox t' →
  listeners <$> select_rows t = listeners <$> select_rows t' →
  wired t = wired t'.
Proof.
  unfold wired. intros Hh Hr. rewrite !forallb_listeners, Hr.
  destruct (selectAllCheckbox t), (selectAllCheckbox t');
    simpl in Hh; try done.
  by injection Hh as ->.
Qed.

Lemma listeners_alter_cell f ci (r : Row) :
  (∀ cb, listeners (f cb) = listeners cb) →
  listeners <$> row_checkboxes
                  {| data_id := data_id r;
                     cells := alter (map_cell f) ci (cells r) |}
  = listeners <$> row_checkboxes r.
Proof.
  intros Hf. unfold row_checkboxes. cbn [cells].
  revert ci. induction (cells r) as [|c cs IH]; intros [|ci]; try done.
  - destruct c; simpl; [f_equal; apply Hf | done].
  - destruct c; simpl; [f_equal|]; apply IH.
Qed.

Lemma listeners_alter_row_checkbox f ri ci t :
  (∀ cb, listeners (f cb) = listeners cb) →
  listeners <$> select_rows (alter_row_checkbox f ri ci t)
  = listeners <$> select_rows t.
Proof.
  intros Hf. unfold select_rows, alter_row_checkbox. cbn [tbody].
  revert ri. induction (tbody t) as [|r rs IH]; intros [|ri]; try done.
  - cbn [alter list_alter]. rewrite !bind_cons, !fmap_app. f_equal.
    by apply listeners_alter_cell.
  - cbn [alter list_alter]. rewrite !bind_cons, !fmap_app. f_equal. apply IH.
Qed.

Lemma wired_refresh t : wired (refresh_selectAll t) = wired t.
Proof.
  apply wired_ext; unfold refresh_selectAll.
  - rewrite selectAllCheckbox_update. by destruct (selectAllCheckbox t).
  - by rewrite select_rows_update_selectAll.
Qed.

Lemma wired_row_click ri ci t :
  wired (alter_row_checkbox toggle ri ci t) = wired t.
Proof. apply wired_ext; [done|]. by apply listeners_alter_row_checkbox. Qed.

Lemma wired_header_click v t :
  wired (forEach_select_row (set_checked v) (update_selectAll toggle t))
  = wired t.
Proof.
  apply wired_ext.
  - change (selectAllCheckbox (forEach_select_row ?f ?u))
      with (selectAllCheckbox u).
    rewrite selectAllCheckbox_update. by destruct (selectAllCheckbox t).
  - rewrite select_rows_forEach, select_rows_update_selectAll.
    rewrite <- list_fmap_compose. by apply list_fmap_ext.
Qed.

Lemma settled_row_click t ri ci cb :
  settled t → row_checkbox_at ri ci t = Some cb →
  (0 < listeners cb)%nat ∧
  settled (refresh_selectAll (alter_row_checkbox toggle ri ci t)).
Proof.
  intros Hs Hcb. pose proof (row_checkbox_at_elem _ _ _ _ Hcb) as Hin.
  destruct Hs as [[_ Hnil] | [Hw _]].
  { rewrite Hnil in Hin. by apply elem_of_nil in Hin. }
  split; [by eapply wired_listeners|]. right. split.
  - by rewrite wired_refresh, wired_row_click.
  - intros _. destruct (wired_selectAll t Hw) as (h0 & Hh0 & _).
    by apply (refresh_selectAll_header (alter_row_checkbox toggle ri ci t) h0).
Qed.

Lemma settled_header_click t h :
  settled t → selectAllCheckbox t = Some h →
  (0 < listeners h)%nat ∧
  settled (forEach_select_row (set_checked (negb (checked h)))
             (update_selectAll toggle t)).
Proof.
  intros Hs Hh. destruct Hs as [[Hnone _] | [Hw _]]; [congruence|].
  destruct (wired_selectAll t Hw) as (h0 & Hh0 & Hl).
  assert (h0 = h) as -> by congruence.
  split; [done|]. right. split; [by rewrite wired_header_click|].
  set (v := negb (checked h)).
  set (t' := forEach_select_row _ _).
  assert (Hrows : select_rows t' = set_checked v <$> select_rows t).
  { subst t'. by rewrite select_rows_forEach, select_rows_update_selectAll. }
  intros Hne. exists (toggle h). split.
  { subst t'.
    change (selectAllCheckbox (forEach_select_row ?f ?u))
      with (selectAllCheckbox u).
    by rewrite selectAllCheckbox_update, Hh. }
  unfold header_in_step, checked_count, select_rows_checked.
  rewrite Hrows, checked_after_set, length_fmap.
  assert (0 < length (select_rows t))%nat.
  { rewrite Hrows in Hne. destruct (select_rows t); [done | simpl; lia]. }
  cbn [toggle checked indeterminate set_checked set_indeterminate]. fold v.
  destruct v; split; symmetry;
    (apply bool_decide_eq_true || apply bool_decide_eq_false); lia.
Qed.

Lemma unchecked_count_0 (l : list Checkbox) :
  Forall (λ cb, checked cb = false) l →
  length (filter (λ cb, checked cb = true) l) = 0%nat.
Proof.
  induction 1 as [|cb l Hcb _ IH]; [done|].
  rewrite filter_cons. case_decide; [congruence | done].
Qed.

(** Augmentation at load leaves the table settled. *)
Lemma augment_settled t : fresh_table t → settled (augment t).
Proof.
  intros [Hc Hnil]. destruct (thead t) as [|headerRow trs] eqn:Hh.
  - left. rewrite augment_no_header_row by done. split; [|done].
    unfold selectAllCheckbox. by rewrite Hh.
  - right. split; [apply augment_wired; [done | by rewrite Hh]|].
    unfold augment. rewrite Hc, Hh. intros Hne.
    eexists. split; [reflexivity|].
    set (t' := forEach_select_row _ _) in *.
    assert (Hun : Forall (λ cb, checked cb = false) (select_rows t')).
    { clear Hne. subst t'. rewrite select_rows_forEach. apply Forall_fmap.
      unfold select_rows in *. cbn [update_selectAll thead tbody].
      revert Hnil. induction (tbody t) as [|r rs IH]; [done|].
      rewrite bind_cons. intros [Hr Hrs]%app_eq_nil.
      rewrite fmap_cons, bind_cons. apply Forall_app. split; [|by apply IH].
      unfold row_checkboxes in *. cbn [insert_select_cell cells omap list_omap].
      fold (omap (λ c, match c with SelectCell cb => Some cb
                               | DataCell _ => None end) (cells r)).
      rewrite Hr. by repeat constructor. }
    unfold header_in_step, checked_count, select_rows_checked.
    rewrite (unchecked_count_0 _ Hun).
    cbn [addEventListener new_checkbox checked indeterminate].
    split; symmetry; [|apply bool_decide_eq_false; lia].
    destruct (select_rows t') eqn:E; [done|by apply bool_decide_eq_false].
Qed.

Lemma setupBatchOperations_settled (p0 : Page) :
  Forall fresh_table (tables p0) → page_settled (setupBatchOperations p0).
Proof.
  intros Hf. split.
  - change (tables (setupBatchOperations p0)) with (augment <$> tables p0).
    apply Forall_fmap. eapply Forall_impl; [done|].
    intros t. apply augment_settled.
  - unfold setupBatchOperations, setupBatchActionButtons.
    set (q := set_containers _ _). exact (in_step_after_update q).
Qed.

Lemma step_settled (p : Page) (e : Event) :
  page_settled p → page_settled (step p e).
Proof.
  intros [Ht Hb]. destruct e as [ti|ti ri ci]; simpl.
  - destruct (tables p !! ti) as [t|] eqn:E;
      [destruct (selectAllCheckbox t) as [h|] eqn:Eh|].
    + destruct (settled_header_click t h) as [Hl Hs];
        [by eapply Forall_lookup_1 | done |].
      split.
      * rewrite (clickSelectAll_page p ti t h) by done.
        cbn [tables set_tables updateBatchActionButtons
             forEach_batch_actions set_containers].
        rewrite list_alter_alter_eq. apply Forall_alter; [done|].
        intros t0 Ht0 _. simpl. by replace t0 with t by congruence.
      * apply (step_in_step p (ClickSelectAll ti)). simpl.
        by rewrite E; simpl; rewrite Eh.
    + unfold clickSelectAll. rewrite E. simpl. rewrite Eh. by split.
    + unfold clickSelectAll. rewrite E. by split.
  - destruct (tables p !! ti) as [t|] eqn:E;
      [destruct (row_checkbox_at ri ci t) as [cb|] eqn:Ecb|].
    + destruct (settled_row_click t ri ci cb) as [Hl Hs];
        [by eapply Forall_lookup_1 | done |].
      split.
      * rewrite (clickRowCheckbox_tables p ti ri ci t cb) by done.
        rewrite list_alter_alter_eq. apply Forall_alter; [done|].
        intros t0 Ht0 _. simpl. by replace t0 with t by congruence.
      * apply (step_in_step p (ClickRow ti ri ci)). simpl.
        by rewrite E; simpl; rewrite Ecb.
    + unfold clickRowCheckbox. rewrite E. simpl. rewrite Ecb. by split.
    + unfold clickRowCheckbox. rewrite E. by split.
Qed.

(** From load on, through any sequence of clicks, every table stays
    settled and every control stays in step with the document-wide
    count. *)
Lemma reachable_settled (p0 : Page) (es : list Event) :
  Forall fresh_table (tables p0) →
  page_settled (run es (setupBatchOperations p0)).
Proof.
  intros Hf. apply setupBatchOperations_settled in Hf.
  revert Hf. generalize (setupBatchOperations p0). clear p0.
  induction es as [|e es IH]; intros p Hp; [done|].
  apply IH. by apply step_settled.
Qed.

Example server_page_fresh path idss :
  Forall fresh_table (tables (server_page path idss)).
Proof.
  unfold server_page. cbn [tables]. apply Forall_fmap, Forall_forall.
  intros ids _. split; [done|]. unfold plain_table, select_rows.
  cbn [tbody]. by induction ids.
Qed.

(** ** The anchored matcher computes the language *)

Section PatternCorrect.
Import Pattern.

Lemma nullable_Lang p : nullable p = true ↔ Lang p [].
Proof.
  split.
  - induction p; simpl; intros H; try discriminate.
    + constructor.
    + apply andb_true_iff in H as [H1 H2].
      apply (LSeq _ _ [] []); auto.
    + apply orb_true_iff in H as [H|H]; [apply LOrL | apply LOrR]; auto.
    + constructor.
  - intros H. remember [] as s eqn:Hs.
    induction H; simpl; subst; try discriminate; auto.
    + apply app_eq_nil in Hs as [-> ->].
      rewrite IHLang1, IHLang2; auto.
    + rewrite IHLang; auto.
    + rewrite IHLang, orb_true_r; auto.
Qed.

Lemma Lang_Seq p q s :
  Lang (Seq p q) s ↔ ∃ s1 s2, s = s1 ++ s2 ∧ Lang p s1 ∧ Lang q s2.
Proof.
  split.
  - inversion 1; subst; eauto.
  - intros (s1 & s2 & -> & H1 & H2). by constructor.
Qed.

Lemma Lang_Or p q s : Lang (Or p q) s ↔ Lang p s ∨ Lang q s.
Proof.
  split.
  - inversion 1; subst; auto.
  - intros [H|H]; [by apply LOrL | by apply LOrR].
Qed.

Lemma Lang_Many_cons p c s :
  Lang (Many p) (c :: s) ↔
  ∃ s1 s2, s = s1 ++ s2 ∧ Lang p (c :: s1) ∧ Lang (Many p) s2.
Proof.
  split.
  - inversion 1; subst; eauto.
  - intros (s1 & s2 & -> & H1 & H2). by constructor.
Qed.

Lemma Lang_Sym f s : Lang (Sym f) s ↔ ∃ c, s = [c] ∧ f c = true.
Proof.
  split.
  - inversion 1; subst; eauto.
  - intros (c & -> & H). by constructor.
Qed.

Lemma Lang_Empty s : Lang Empty s ↔ s = [].
Proof. split; [by inversion 1 | intros ->; constructor]. Qed.

Lemma deriv_Lang c p : ∀ s, Lang (deriv c p) s ↔ Lang p (c :: s).
Proof.
  induction p as [| |f|p IHp q IHq|p IHp q IHq|p IH]; intros s; simpl.
  - split; inversion 1.
  - split; inversion 1.
  - destruct (f c) eqn:Hf.
    + rewrite Lang_Empty, Lang_Sym. split.
      * intros ->. eauto.
      * intros (c' & [= -> ->] & _). done.
    + rewrite Lang_Sym. split; [inversion 1|].
      intros (c' & [= -> ->] & ?). congruence.
  - assert (Hseq : Lang (Seq (deriv c p) q) s ↔
                   ∃ s1 s2, s = s1 ++ s2 ∧ Lang p (c :: s1) ∧ Lang q s2).
    { rewrite Lang_Seq. by setoid_rewrite IHp. }
    rewrite (Lang_Seq p q (c :: s)).
    destruct (nullable p) eqn:Hn.
    + rewrite Lang_Or, Hseq, IHq. split.
      * intros [(s1 & s2 & -> & H1 & H2) | H2].
        -- by exists (c :: s1), s2.
        -- exists [], (c :: s). by rewrite <- nullable_Lang.
      * intros (s1 & s2 & Heq & H1 & H2). destruct s1 as [|c' s1].
        -- simpl in Heq. subst s2. by right.
        -- injection Heq as <- ->. left. eauto.
    + rewrite Hseq. split.
      * intros (s1 & s2 & -> & H1 & H2). by exists (c :: s1), s2.
      * intros (s1 & s2 & Heq & H1 & H2). destruct s1 as [|c' s1].
        -- apply nullable_Lang in H1. congruence.
        -- injection Heq as <- ->. eauto.
  - rewrite !Lang_Or, IHp, IHq. tauto.
  - rewrite Lang_Seq, Lang_Many_cons. by setoid_rewrite IH.
Qed.

Lemma full_spec p s : full p s = true ↔ Lang p s.
Proof.
  revert p. induction s as [|c s IH]; intros p; simpl.
  - apply nullable_Lang.
  - by rewrite IH, deriv_Lang.
Qed.

Lemma look_spec p s :
  look p s = true ↔ ∃ s1 s2, s = s1 ++ s2 ∧ Lang p s1.
Proof.
  revert p. induction s as [|c s IH]; intros p; simpl.
  - rewrite orb_false_r, nullable_Lang. split.
    + intros H. by exists [], [].
    + intros (s1 & s2 & Heq & H). symmetry in Heq.
      by apply app_eq_nil in Heq as [-> _].
  - rewrite orb_true_iff, IH, nullable_Lang. split.
    + intros [H | (s1 & s2 & -> & H)].
      * by exists [], (c :: s).
      * exists (c :: s1), s2. by rewrite <- deriv_Lang.
    + intros (s1 & s2 & Heq & H). destruct s1 as [|c' s1].
      * by left.
      * injection Heq as <- ->. right. exists s1, s2.
        by rewrite deriv_Lang.
Qed.

(** Repetitions of one class. *)
Lemma Lang_Many_Sym f s :
  Lang (Many (Sym f)) s ↔ Forall (λ c, f c = true) s.
Proof.
  induction s as [|c s IH].
  - split; constructor.
  - rewrite Lang_Many_cons, Forall_cons. split.
    + intros (s1 & s2 & -> & H1 & H2).
      apply Lang_Sym in H1 as (c' & [= -> ->] & Hc).
      split; [done|]. by apply IH.
    + intros [Hc Hs]. exists [], s. split; [done|].
      split; [by constructor | by apply IH].
Qed.

Lemma Lang_times_Sym f n s :
  Lang (times n (Sym f)) s ↔ length s = n ∧ Forall (λ c, f c = true) s.
Proof.
  revert s. induction n as [|n IH]; intros s; simpl.
  - rewrite Lang_Empty. split.
    + intros ->. by split.
    + intros [H _]. by destruct s.
  - rewrite Lang_Seq. split.
    + intros (s1 & s2 & -> & H1 & H2).
      apply Lang_Sym in H1 as (c & -> & Hc). apply IH in H2 as [<- H2].
      split; [done|]. by constructor.
    + intros [Hlen Hall]. destruct s as [|c s]; [done|].
      apply Forall_cons in Hall as [Hc Hs].
      exists [c], s. split; [done|]. split; [by constructor|].
      apply IH. split; [|done]. simpl in Hlen. lia.
Qed.

Lemma Lang_at_least_Sym f n s :
  Lang (at_least n (Sym f)) s ↔
  (n ≤ length s)%nat ∧ Forall (λ c, f c = true) s.
Proof.
  unfold at_least. rewrite Lang_Seq. split.
  - intros (s1 & s2 & -> & H1 & H2).
    apply Lang_times_Sym in H1 as [<- H1]. apply Lang_Many_Sym in H2.
    rewrite length_app. split; [lia|]. by apply Forall_app.
  - intros [Hlen Hall]. exists (take n s), (drop n s).
    rewrite take_drop. split; [done|].
    rewrite <- (take_drop n s) in Hall. apply Forall_app in Hall as [H1 H2].
    split; [apply Lang_times_Sym | by apply Lang_Many_Sym].
    split; [|done]. rewrite length_take. lia.
Qed.

(** [(?=.*X)]: a code unit of the class with no line terminator before
    it. *)
Lemma look_somewhere ranges s :
  look (Seq (Many (Sym dot)) (Sym (cls ranges))) s = true ↔
  ∃ pre c post, s = pre ++ c :: post ∧
                Forall (λ x, dot x = true) pre ∧ cls ranges c = true.
Proof.
  rewrite look_spec. split.
  - intros (s1 & s2 & -> & H). apply Lang_Seq in H as (pre & x & -> & H1 & H2).
    apply Lang_Sym in H2 as (c & -> & Hc). apply Lang_Many_Sym in H1.
    exists pre, c, s2. split; [by rewrite <- app_assoc | done].
  - intros (pre & c & post & -> & Hpre & Hc).
    exists (pre ++ [c]), post. split; [by rewrite <- app_assoc|].
    constructor; [by apply Lang_Many_Sym | by constructor].
Qed.

End PatternCorrect.

(** ** Accepted passwords *)

Section PasswordRules.
Import Pattern.

(** Replace a class by its numeric ranges, then decide by arithmetic. *)
Ltac numeric_class x := let r := eval vm_compute in x in change x with r.

Ltac class_arith :=
  unfold ncls, cls, dot, Regex.line_terminator; cbn [existsb fst snd];
  rewrite ?orb_false_r, ?negb_true_iff, ?orb_false_iff, ?orb_true_iff, ?andb_true_iff,
    ?andb_false_iff, ?N.leb_le, ?N.leb_gt, ?N.eqb_neq;
  lia.

Lemma password_class_dot c : cls password_class c = true → dot c = true.
Proof. numeric_class password_class. class_arith. Qed.

Lemma lower_password_class c :
  cls lower_class c = true → cls password_class c = true.
Proof. numeric_class password_class. numeric_class lower_class. class_arith. Qed.

Lemma special_not_alnum c :
  cls special_class c = true →
  ncls (lower_class ++ upper_class ++ digit_class) c = true.
Proof.
  numeric_class special_class.
  numeric_class (lower_class ++ upper_class ++ digit_class). class_arith.
Qed.

Lemma lower_is_letter c :
  cls lower_class c = true → cls (lower_class ++ upper_class) c = true.
Proof.
  numeric_class (lower_class ++ upper_class). numeric_class lower_class.
  class_arith.
Qed.

Lemma lower_is_alnum c :
  cls lower_class c = true →
  cls (lower_class ++ upper_class ++ digit_class) c = true.
Proof.
  numeric_class (lower_class ++ upper_class ++ digit_class).
  numeric_class lower_class. class_arith.
Qed.

Lemma lower_not_upper c :
  cls lower_class c = true → cls upper_class c = true → False.
Proof. numeric_class lower_class. numeric_class upper_class. class_arith. Qed.

Lemma lower_not_digit c :
  cls lower_class c = true → cls digit_class c = true → False.
Proof. numeric_class lower_class. numeric_class digit_class. class_arith. Qed.

Lemma lower_not_special c :
  cls lower_class c = true → cls special_class c = true → False.
Proof. numeric_class lower_class. numeric_class special_class. class_arith. Qed.

(** The classes of the strength heuristic are the same sets. *)
Lemma atom_lower c : Regex.atom_matches Regex.lower c = cls lower_class c.
Proof. reflexivity. Qed.
Lemma atom_upper c : Regex.atom_matches Regex.upper c = cls upper_class c.
Proof. reflexivity. Qed.
Lemma atom_digit c : Regex.atom_matches Regex.Digit c = cls digit_class c.
Proof.
  unfold cls, digit_class. cbn [existsb]. rewrite orb_false_r. reflexivity.
Qed.
Lemma atom_letter c :
  Regex.atom_matches Regex.letter c = cls (lower_class ++ upper_class) c.
Proof. reflexivity. Qed.
Lemma atom_alnum c :
  Regex.atom_matches Regex.alnum c
  = cls (lower_class ++ upper_class ++ digit_class) c.
Proof. reflexivity. Qed.
Lemma atom_non_alnum c :
  Regex.atom_matches Regex.non_alnum c
  = ncls (lower_class ++ upper_class ++ digit_class) c.
Proof. reflexivity. Qed.
Lemma atom_Dot c : Regex.atom_matches Regex.Dot c = dot c.
Proof. reflexivity. Qed.

(** X1: [validatePassword] accepts exactly the strings of eight or more
    code units, all of them letters, digits or listed special characters,
    that hold a lower-case letter, an upper-case letter, a digit and a
    special character. *)
Theorem validatePassword_spec (password : jsstring) :
  validatePassword password = true ↔
  (8 ≤ length password)%nat ∧
  Forall (λ c, cls password_class c = true) password ∧
  has lower_class password ∧ has upper_class password ∧
  has digit_class password ∧ has special_class password.
Proof.
  unfold validatePassword, Pattern.test, passwordRegex.
  cbn [lookaheads body forallb]. unfold somewhere.
  rewrite !andb_true_iff, !look_somewhere, full_spec, Lang_at_least_Sym.
  assert (Hhas : ∀ ranges,
    Forall (λ c, cls password_class c = true) password →
    (∃ pre c post, password = pre ++ c :: post ∧
                   Forall (λ x, dot x = true) pre ∧ cls ranges c = true)
    ↔ has ranges password).
  { intros ranges Hall. split.
    - intros (pre & c & post & -> & _ & Hc). exists c. split; [|done].
      apply elem_of_app. right. by left.
    - intros (c & Hin & Hc).
      apply list_elem_of_split in Hin as (pre & post & ->).
      exists pre, c, post. split_and!; try done.
      apply Forall_app in Hall as [Hpre _].
      eapply Forall_impl; [exact Hpre|]. apply password_class_dot. }
  split.
  - intros [(H1 & H2 & H3 & H4 & _) [Hlen Hall]].
    split_and!; try done; by apply Hhas.
  - intros (Hlen & Hall & H1 & H2 & H3 & H4).
    split_and!; try done; by apply Hhas.
Qed.

End PasswordRules.

(** ** Accepted passwords and the strength meter *)

Lemma Matches_Star_Dot (m : jsstring) :
  Forall (λ c, Pattern.dot c = true) m → Matches (Star (Atom Dot)) m.
Proof.
  induction 1 as [|c m Hc _ IH]; [constructor|].
  apply (MStarCons _ c [] m); [by constructor | done].
Qed.

Lemma test_then_later x y (a m b : jsstring) c1 c2 :
  atom_matches x c1 = true → atom_matches y c2 = true →
  Forall (λ c, Pattern.dot c = true) m →
  test (then_later x y) (a ++ c1 :: m ++ c2 :: b) = true.
Proof.
  intros Hx Hy Hm. apply test_spec. exists a, (c1 :: m ++ [c2]), b. split.
  - simpl. by rewrite <- !app_assoc.
  - unfold then_later. apply (MCat _ _ [c1] (m ++ [c2])); [by constructor|].
    apply MCat; [by apply Matches_Star_Dot | by constructor].
Qed.

Lemma test_Alt r1 r2 s :
  test (Alt r1 r2) s = true ↔ test r1 s = true ∨ test r2 s = true.
Proof.
  rewrite !test_spec. setoid_rewrite Matches_Alt_inv. split.
  - intros (s0 & s1 & s2 & Heq & [H|H]); [left | right]; eauto.
  - intros [(s0 & s1 & s2 & Heq & H) | (s0 & s1 & s2 & Heq & H)];
      exists s0, s1, s2; auto.
Qed.

Lemma two_elems_split {A} (x y : A) (s : list A) :
  x ∈ s → y ∈ s → x ≠ y →
  ∃ a m b, s = a ++ x :: m ++ y :: b ∨ s = a ++ y :: m ++ x :: b.
Proof.
  intros Hx Hy Hne. apply list_elem_of_split in Hx as (a & b & ->).
  apply elem_of_app in Hy as [Hy|Hy].
  - apply list_elem_of_split in Hy as (a1 & a2 & ->).
    exists a1, a2, b. right. by rewrite <- app_assoc.
  - apply elem_of_cons in Hy as [Hy|Hy]; [congruence|].
    apply list_elem_of_split in Hy as (b1 & b2 & ->).
    exists a, b1, b2. by left.
Qed.

(** Two different code units of a string without line terminators, one of
    each class, make the two-sided expression match. *)
Lemma test_both_orders x y (s : jsstring) c1 c2 :
  Forall (λ c, Pattern.dot c = true) s →
  c1 ∈ s → c2 ∈ s → c1 ≠ c2 →
  atom_matches x c1 = true → atom_matches y c2 = true →
  test (Alt (then_later x y) (then_later y x)) s = true.
Proof.
  intros Hs H1 H2 Hne Hx Hy. apply test_Alt.
  destruct (two_elems_split c1 c2 s H1 H2 Hne) as (a & m & b & [-> | ->]);
    [left | right]; apply test_then_later; try done.
  - apply Forall_app in Hs as [_ Hs]. apply Forall_cons in Hs as [_ Hs].
    by apply Forall_app in Hs as [Hs _].
  - apply Forall_app in Hs as [_ Hs]. apply Forall_cons in Hs as [_ Hs].
    by apply Forall_app in Hs as [Hs _].
Qed.

(** X2: a password that [validatePassword] accepts scores 85, or 100 from
    twelve code units on, in [checkPasswordStrength], so the meter labels
    it Strong. *)
Theorem accepted_password_is_strong (password : jsstring) (m : StrengthMeter) :
  validatePassword password = true →
  checkPasswordStrength password
  = (if 12 <=? Z.of_nat (length password) then 100 else 85) ∧
  text_content
    (updatePasswordStrengthIndicator m (checkPasswordStrength password))
  = "Strong".
Proof.
  intros H. apply validatePassword_spec in H
    as (Hlen & Hall & (l & Hl & Hlc) & (u & Hu & Huc) & (d & Hd & Hdc)
        & (x & Hx & Hxc)).
  assert (Hdot : Forall (λ c, Pattern.dot c = true) password).
  { eapply Forall_impl; [exact Hall|]. apply password_class_dot. }
  assert (T1 : test re_lower password = true).
  { apply test_Atom. exists l. by rewrite atom_lower. }
  assert (T2 : test re_upper password = true).
  { apply test_Atom. exists u. by rewrite atom_upper. }
  assert (T3 : test re_digit password = true).
  { apply test_Atom. exists d. by rewrite atom_digit. }
  assert (T4 : test re_special password = true).
  { apply test_Atom. exists x. split; [done|].
    rewrite atom_non_alnum. by apply special_not_alnum. }
  assert (T5 : test re_mixed_case password = true).
  { apply (test_both_orders _ _ _ l u); [done | done | done | | | ].
    - intros ->. by eapply lower_not_upper.
    - by rewrite atom_lower.
    - by rewrite atom_upper. }
  assert (T6 : test re_digit_letter password = true).
  { apply (test_both_orders _ _ _ d l); [done | done | done | | | ].
    - intros ->. by eapply lower_not_digit.
    - by rewrite atom_digit.
    - rewrite atom_letter. by apply lower_is_letter. }
  assert (T7 : test re_special_alnum password = true).
  { apply (test_both_orders _ _ _ x l); [done | done | done | | | ].
    - intros ->. by eapply lower_not_special.
    - rewrite atom_non_alnum. by apply special_not_alnum.
    - rewrite atom_alnum. by apply lower_is_alnum. }
  assert (Hscore : checkPasswordStrength password
                   = if 12 <=? Z.of_nat (length password) then 100 else 85).
  { unfold checkPasswordStrength. rewrite T1, T2, T3, T4, T5, T6, T7.
    assert (H8 : (8 <=? Z.of_nat (length password)) = true)
      by (apply Z.leb_le; lia).
    rewrite H8. unfold bump.
    by destruct (12 <=? Z.of_nat (length password)). }
  split; [done|]. rewrite Hscore. unfold updatePasswordStrengthIndicator.
  by destruct (12 <=? Z.of_nat (length password)).
Qed.

Lemma accepted_password_is_strong_witness :
  validatePassword (js "Ab1!Ab1!") = true ∧
  checkPasswordStrength (js "Ab1!Ab1!") = 85 ∧
  text_content
    (updatePasswordStrengthIndicator new_meter
       (checkPasswordStrength (js "Ab1!Ab1!")))
  = "Strong".
Proof.
  split; [reflexivity|].
  apply (accepted_password_is_strong (js "Ab1!Ab1!") new_meter). reflexivity.
Defined.

(** X3: a password of fewer than eight code units scores at most 60,
    whatever it is made of, and is never labelled Strong. *)
Theorem short_password_not_strong (password : jsstring) (m : StrengthMeter) :
  (length password < 8)%nat →
  checkPasswordStrength password ≤ 60 ∧
  text_content
    (updatePasswordStrengthIndicator m (checkPasswordStrength password))
  ≠ "Strong".
Proof.
  intros Hlen.
  assert (Hscore : checkPasswordStrength password ≤ 60).
  { unfold checkPasswordStrength.
    set (len := Z.of_nat (length password)).
    assert (H8 : (8 <=? len) = false) by (apply Z.leb_gt; lia).
    assert (H12 : (12 <=? len) = false) by (apply Z.leb_gt; lia).
    rewrite H8, H12. cbn [bump].
    pose proof (bump_bounds (test re_lower password) 10 0).
    set (s3 := bump (test re_lower password) 10 0) in *.
    pose proof (bump_bounds (test re_upper password) 10 s3).
    set (s4 := bump (test re_upper password) 10 s3) in *.
    pose proof (bump_bounds (test re_digit password) 10 s4).
    set (s5 := bump (test re_digit password) 10 s4) in *.
    pose proof (bump_bounds (test re_special password) 15 s5).
    set (s6 := bump (test re_special password) 15 s5) in *.
    pose proof (bump_bounds (test re_mixed_case password) 5 s6).
    set (s7 := bump (test re_mixed_case password) 5 s6) in *.
    pose proof (bump_bounds (test re_digit_letter password) 5 s7).
    set (s8 := bump (test re_digit_letter password) 5 s7) in *.
    pose proof (bump_bounds (test re_special_alnum password) 5 s8).
    set (s9 := bump (test re_special_alnum password) 5 s8) in *.
    cbv zeta. lia. }
  split; [done|]. unfold updatePasswordStrengthIndicator.
  destruct (Z.ltb_spec (checkPasswordStrength password) 30); [done|].
  destruct (Z.ltb_spec (checkPasswordStrength password) 60); [done|].
  destruct (Z.ltb_spec (checkPasswordStrength password) 80); [done|lia].
Qed.

Lemma short_password_not_strong_witness :
  (length (js "Ab1!Ab1") < 8)%nat ∧
  checkPasswordStrength (js "Ab1!Ab1") ≤ 60 ∧
  text_content
    (updatePasswordStrengthIndicator new_meter
       (checkPasswordStrength (js "Ab1!Ab1")))
  ≠ "Strong".
Proof.
  split; [simpl; lia|].
  apply (short_password_not_strong (js "Ab1!Ab1") new_meter). simpl. lia.
Defined.

(** ** One field under validation *)

Lemma classList_contains_add_ne c d l :
  c ≠ d → classList_contains c (classList_add d l) = classList_contains c l.
Proof.
  intros Hne. unfold classList_contains, classList_add.
  destruct (decide (d ∈ l)); [done|]. apply bool_decide_ext.
  rewrite elem_of_app, elem_of_cons, elem_of_nil. tauto.
Qed.

Lemma classList_contains_remove_ne c d l :
  c ≠ d →
  classList_contains c (classList_remove d l) = classList_contains c l.
Proof.
  intros Hne. unfold classList_contains, classList_remove.
  apply bool_decide_ext. rewrite list_elem_of_filter. tauto.
Qed.

Lemma field_classes_showValidationError message f :
  field_classes (showValidationError message f) = field_classes f.
Proof.
  unfold showValidationError, remove_feedback.
  by destruct (following f) as [|[] ?].
Qed.

Lemma field_classes_remove_feedback f :
  field_classes (remove_feedback f) = field_classes f.
Proof. unfold remove_feedback. by destruct (following f) as [|[] ?]. Qed.

Lemma next_is_feedback_showValidationError message f :
  next_is_feedback (showValidationError message f) = true.
Proof. reflexivity. Qed.

Lemma validateField_verdict f showError :
  (validateField f showError).1 = verdict_of f.
Proof.
  unfold validateField, verdict_of, special_check.
  destruct (bool_decide (field_type f = "email") && truthy (field_value f));
    [done|].
  destruct (bool_decide (field_type f = "tel") && truthy (field_value f));
    [done|].
  by destruct (bool_decide (field_name f = "barcode")
               && truthy (field_value f)).
Qed.

(** The field that the second half of [validateField] works on. *)
Lemma validateField_shape f showError :
  ∃ g, (g = f ∨ ∃ message, verdict_of f = false ∧ showError = true ∧
                           g = showValidationError message f) ∧
       (validateField f showError).2
       = if showError then
           if verdict_of f then
             remove_feedback
               (set_field_classes
                  (classList_add "is-valid"
                     (classList_remove "is-invalid" (field_classes g))) g)
           else if negb (classList_contains "is-invalid" (field_classes g))
           then
             let g' := set_field_classes
                         (classList_remove "is-valid"
                            (classList_add "is-invalid" (field_classes g)))
                         g in
             if negb (next_is_feedback g')
             then showValidationError "This field is required" g' else g'
           else g
         else g.
Proof.
  unfold validateField, verdict_of, special_check.
  destruct (bool_decide (field_type f = "email") && truthy (field_value f)).
  { destruct (Pattern.test emailRegex (field_value f)) eqn:E, showError;
      [exists f | exists f
      | exists (showValidationError "Please enter a valid email address" f)
      | exists f]; (split; [eauto | reflexivity]). }
  destruct (bool_decide (field_type f = "tel") && truthy (field_value f)).
  { destruct (Pattern.test phoneRegex (field_value f)) eqn:E, showError;
      [exists f | exists f
      | exists (showValidationError "Please enter a valid phone number" f)
      | exists f]; (split; [eauto | reflexivity]). }
  destruct (bool_decide (field_name f = "barcode") && truthy (field_value f)).
  { destruct (Pattern.test barcodeRegex (field_value f)) eqn:E, showError;
      [exists f | exists f
      | exists (showValidationError "Barcode format is incorrect, please check" f)
      | exists f]; (split; [eauto | reflexivity]). }
  exists f. split; [by left | done].
Qed.

Lemma mark_valid_classes l :
  classList_contains "is-invalid"
    (classList_add "is-valid" (classList_remove "is-invalid" l)) = false ∧
  classList_contains "is-valid"
    (classList_add "is-valid" (classList_remove "is-invalid" l)) = true.
Proof.
  split; [|apply classList_contains_add].
  rewrite classList_contains_add_ne by done.
  apply classList_contains_remove.
Qed.

Lemma mark_invalid_classes l :
  classList_contains "is-invalid"
    (classList_remove "is-valid" (classList_add "is-invalid" l)) = true ∧
  classList_contains "is-valid"
    (classList_remove "is-valid" (classList_add "is-invalid" l)) = false.
Proof.
  split; [|apply classList_contains_remove].
  rewrite classList_contains_remove_ne by done.
  apply classList_contains_add.
Qed.

Lemma is_invalid_after_shown f :
  classList_contains "is-invalid" (field_classes (validateField f true).2)
  = negb (verdict_of f) ∧
  (verdict_of f = true →
   classList_contains "is-valid" (field_classes (validateField f true).2)
   = true).
Proof.
  destruct (validateField_shape f true) as (g & Hg & ->).
  assert (Hcls : field_classes g = field_classes f).
  { destruct Hg as [-> | (m & _ & _ & ->)]; [done|].
    apply field_classes_showValidationError. }
  destruct (verdict_of f) eqn:E; simpl.
  - rewrite field_classes_remove_feedback. cbn [field_classes set_field_classes].
    destruct (mark_valid_classes (field_classes g)) as [-> ->]. done.
  - split; [|done].
    destruct (classList_contains "is-invalid" (field_classes g)) eqn:Ei;
      simpl; [done|].
    match goal with
    | |- context [if ?b then _ else _] => destruct b
    end; rewrite ?field_classes_showValidationError;
      cbn [field_classes set_field_classes];
      by destruct (mark_invalid_classes (field_classes g)) as [-> _].
Qed.

(** X4: validation on [input] never touches the field: whatever is typed,
    the classes and the message after the field stay as they were; only a
    validation that shows errors writes to the page. *)
Theorem input_validation_is_silent (f : Field) (value : jsstring)
    (valid : bool) :
  (validateField f false).2 = f ∧
  field_classes (onFieldInput value valid f) = field_classes f ∧
  following (onFieldInput value valid f) = following f ∧
  field_value (onFieldInput value valid f) = value.
Proof.
  assert (H : ∀ g, (validateField g false).2 = g).
  { intros g. destruct (validateField_shape g false) as (g' & Hg & ->).
    destruct Hg as [-> | (? & _ & [=] & _)]. done. }
  split; [apply H|]. unfold onFieldInput. by rewrite H.
Qed.

(** X5: after a validation that shows errors, the field carries
    [is-invalid] exactly when the verdict is negative, and [is-valid]
    whenever it is positive, whatever the classes were before. *)
Theorem shown_validation_marks_verdict (f : Field) :
  let '(isValid, f') := validateField f true in
  classList_contains "is-invalid" (field_classes f') = negb isValid ∧
  (isValid = true → classList_contains "is-valid" (field_classes f') = true).
Proof.
  pose proof (validateField_verdict f true) as Hv.
  pose proof (is_invalid_after_shown f) as H.
  destruct (validateField f true) as [isValid f']. simpl in Hv, H.
  by subst isValid.
Qed.

Lemma fresh_consistent f : fresh_field f → consistent f.
Proof.
  intros (Hv & Hi & Hf). unfold consistent, next_is_feedback.
  rewrite Hi. split_and!; [done| |].
  - destruct Hf as [|? ? ->]; done.
  - destruct Hf; [constructor | done].
Qed.

Lemma validateField_consistent f showError :
  consistent f → consistent (validateField f showError).2.
Proof.
  intros (Hboth & Hfb & Hrest).
  destruct (validateField_shape f showError) as (g & Hg & ->).
  destruct showError.
  2:{ destruct Hg as [-> | (? & _ & [=] & _)]. done. }
  destruct f as [ty nm val vd rq cl fol].
  set (f := {| field_type := ty; field_name := nm; field_value := val;
               validity := vd; required := rq; field_classes := cl;
               following := fol |}) in *.
  unfold consistent, next_is_feedback in Hboth, Hfb, Hrest.
  cbn [f field_classes following] in Hboth, Hfb, Hrest.
  destruct (mark_valid_classes cl) as [Hvi Hvv].
  destruct (mark_invalid_classes cl) as [Hii Hiv].
  assert (Hfol : fol = [] ∨ (∃ rest, fol = OtherElement :: rest) ∨
                 ∃ m, fol = [Feedback m] ∨
                      ∃ rest, fol = Feedback m :: OtherElement :: rest).
  { destruct fol as [|[m|] rest]; [by left | | right; left; eauto].
    right. right. exists m. change (drop 1 (Feedback m :: rest)) with rest in Hrest.
    destruct Hrest as [|? ? ->]; [by left | right; eauto]. }
  assert (Hrest' : ∀ x rest, fol = x :: rest →
                   Forall (λ y, y = OtherElement) rest).
  { intros x rest ->. exact Hrest. }
  destruct (verdict_of f) eqn:E.
  - destruct Hg as [-> | (? & [=] & _)].
    unfold consistent, next_is_feedback, remove_feedback.
    destruct Hfol as [-> | [[rest ->] | [m [-> | [rest ->]]]]];
      cbn [f field_classes following set_following set_field_classes];
      rewrite Hvi; split_and!; try done.
    exact (Forall_inv_tail Hrest).
  - destruct (classList_contains "is-invalid" cl) eqn:Ei.
    + destruct Hfol as [-> | [[rest ->] | [m Hfol]]]; [done | done |].
      destruct Hg as [-> | (m' & _ & _ & ->)].
      * cbn [f field_classes]. rewrite Ei. cbn [negb].
        unfold consistent, next_is_feedback.
        cbn [f field_classes following]. rewrite Ei.
        destruct Hfol as [-> | [rest ->]]; split_and!; done.
      * rewrite field_classes_showValidationError. cbn [f field_classes].
        rewrite Ei. cbn [negb]. unfold consistent.
        rewrite field_classes_showValidationError. cbn [f field_classes].
        rewrite Ei. split_and!; [done | done |].
        destruct Hfol as [-> | [rest ->]]; [by constructor|].
        exact (Hrest' _ _ eq_refl).
    + assert (Hall : Forall (λ x, x = OtherElement) fol).
      { destruct Hfol as [-> | [[rest ->] | [m [-> | [rest ->]]]]];
          try done. constructor; [done|]. exact (Hrest' _ _ eq_refl). }
      assert (Hnf : ∀ h, following h = fol → next_is_feedback h = false).
      { intros h Hh. unfold next_is_feedback. rewrite Hh.
        by destruct Hall as [|? ? ->]. }
      assert (Hrm : ∀ h, following h = fol → remove_feedback h = h).
      { intros h Hh. unfold remove_feedback. rewrite Hh.
        by destruct Hall as [|? ? ->]. }
      destruct Hg as [-> | (m' & _ & _ & ->)].
      * cbn [f field_classes]. rewrite Ei. cbv zeta; cbn [negb].
        rewrite Hnf by done. cbn [negb]. unfold consistent.
        rewrite field_classes_showValidationError.
        cbn [f field_classes set_field_classes]. rewrite Hii, Hiv.
        split_and!; [done | done |].
        unfold showValidationError. rewrite Hrm by done. exact Hall.
      * rewrite field_classes_showValidationError. cbn [f field_classes].
        rewrite Ei. cbv zeta; cbn [negb].
        unfold showValidationError at 1 2 3. rewrite Hrm by done.
        unfold next_is_feedback at 1.
        cbn [following set_following set_field_classes negb].
        unfold consistent, next_is_feedback.
        cbn [f field_classes following set_following set_field_classes].
        rewrite Hii, Hiv. split_and!; [done | done |].
        unfold showValidationError. rewrite Hrm by done. exact Hall.
Qed.

(** X6: starting from a field without validation classes or messages,
    through any sequence of edits and blurs, the field never carries both
    [is-valid] and [is-invalid], carries [is-invalid] exactly when an error
    message directly follows it, and has no second message behind; and
    after the next blur a message is shown exactly when the verdict is
    negative. *)
Theorem field_stays_consistent (f : Field) (es : list FieldEvent) :
  fresh_field f →
  let f' := foldl field_step f es in
  consistent f' ∧
  next_is_feedback (onFieldBlur f') = negb (validateField f' true).1.
Proof.
  intros Hf f'.
  assert (Hc : consistent f').
  { subst f'. apply fresh_consistent in Hf. revert f Hf.
    induction es as [|e es IH]; intros f Hf; [done|].
    apply IH. destruct e as [value valid|]; simpl.
    - unfold onFieldInput. by apply validateField_consistent.
    - unfold onFieldBlur. by apply validateField_consistent. }
  split; [done|]. unfold onFieldBlur.
  pose proof (validateField_consistent f' true Hc) as (_ & <- & _).
  rewrite validateField_verdict. apply is_invalid_after_shown.
Qed.

Lemma field_stays_consistent_witness :
  let es := [FieldBlur; FieldInput (js "a@b.c") true; FieldBlur;
             FieldInput [] false; FieldBlur] in
  fresh_field sample_email ∧
  consistent (foldl field_step sample_email es) ∧
  next_is_feedback (onFieldBlur (foldl field_step sample_email es))
  = negb (validateField (foldl field_step sample_email es) true).1.
Proof.
  intros es.
  assert (Hf : fresh_field sample_email) by (by repeat split).
  split; [exact Hf|]. apply (field_stays_consistent sample_email es Hf).
Defined.

(** ** What the special validations accept *)

Section SpecialValidation.
Import Pattern.

Lemma cls_ch a c : cls [ch a] c = true ↔ c = code_of_ascii a.
Proof.
  unfold cls, ch, rg. cbn [existsb fst snd].
  rewrite orb_false_r, andb_true_iff, !N.leb_le. lia.
Qed.

Lemma Lang_some_Sym f s :
  Lang (some (Sym f)) s ↔ s ≠ [] ∧ Forall (λ c, f c = true) s.
Proof.
  unfold some. rewrite Lang_at_least_Sym.
  destruct s; simpl; split; intros [? ?]; split; try done; lia.
Qed.

Lemma truthy_true {A} (s : list A) : s ≠ [] → truthy s = true.
Proof. by destruct s. Qed.

(** X7: for a field of type [tel] with a value, the verdict of
    [validateField] does not depend on [checkValidity]: it is positive
    exactly when the value is [1], a digit from 3 to 9, and nine more
    digits. *)
Theorem tel_field_verdict (f : Field) (showError : bool) :
  field_type f = "tel" →
  field_value f ≠ [] →
  (validateField f showError).1 = true ↔
  ∃ d rest,
    field_value f = js "1" ++ d :: rest ∧
    cls [rg "3" "9"] d = true ∧
    length rest = 9%nat ∧ Forall (λ c, cls digit_class c = true) rest.
Proof.
  intros Hty Hval. rewrite validateField_verdict. unfold verdict_of.
  rewrite Hty, (truthy_true _ Hval).
  rewrite (bool_decide_eq_false_2 ("tel" = "email")) by done.
  rewrite (bool_decide_eq_true_2 ("tel" = "tel")) by done.
  cbn [andb]. unfold Pattern.test, phoneRegex. cbn [lookaheads body forallb andb].
  rewrite full_spec, Lang_Seq. split.
  - intros (s1 & s2 & Heq & H1 & H2).
    apply Lang_Sym in H1 as (c & -> & Hc%cls_ch). subst c.
    apply Lang_Seq in H2 as (s3 & s4 & -> & H3 & H4).
    apply Lang_Sym in H3 as (d & -> & Hd).
    apply Lang_times_Sym in H4 as [Hlen Hall].
    exists d, s4. by rewrite Heq.
  - intros (d & rest & Heq & Hd & Hlen & Hall).
    exists (js "1"), (d :: rest). split; [done|]. split.
    + apply Lang_Sym. exists (code_of_ascii "1"). split; [done|].
      by apply cls_ch.
    + apply (LSeq _ _ [d] rest); [by constructor|].
      by apply Lang_times_Sym.
Qed.

Lemma tel_field_verdict_witness :
  let f := {| field_type := "tel"; field_name := "phone";
              field_value := js "13812345678"; validity := false;
              required := true; field_classes := []; following := [] |} in
  field_type f = "tel" ∧ field_value f ≠ [] ∧
  ((validateField f true).1 = true ↔
   ∃ d rest,
     field_value f = js "1" ++ d :: rest ∧
     cls [rg "3" "9"] d = true ∧
     length rest = 9%nat ∧ Forall (λ c, cls digit_class c = true) rest).
Proof.
  intros f. split; [reflexivity|]. split; [discriminate|].
  apply (tel_field_verdict f true); [reflexivity | discriminate].
Defined.

(** X8: for a field of type [email] with a value, the verdict is positive
    exactly when the value reads [a@b.c] with [a], [b] and [c] not empty
    and free of white space and of [@]. *)
Theorem email_field_verdict (f : Field) (showError : bool) :
  field_type f = "email" →
  field_value f ≠ [] →
  (validateField f showError).1 = true ↔
  ∃ a b c,
    field_value f = a ++ js "@" ++ b ++ js "." ++ c ∧
    email_part a ∧ email_part b ∧ email_part c.
Proof.
  intros Hty Hval. rewrite validateField_verdict. unfold verdict_of.
  rewrite Hty, (truthy_true _ Hval).
  rewrite (bool_decide_eq_true_2 ("email" = "email")) by done.
  cbn [andb]. unfold Pattern.test, emailRegex. cbn [lookaheads body forallb andb].
  rewrite full_spec, Lang_Seq. unfold email_part. split.
  - intros (a & s2 & Heq & Ha%Lang_some_Sym & H2).
    apply Lang_Seq in H2 as (x & s3 & -> & Hx & H3).
    apply Lang_Sym in Hx as (c1 & -> & Hc1%cls_ch). subst c1.
    apply Lang_Seq in H3 as (b & s4 & -> & Hb%Lang_some_Sym & H4).
    apply Lang_Seq in H4 as (y & c & -> & Hy & Hc%Lang_some_Sym).
    apply Lang_Sym in Hy as (c2 & -> & Hc2%cls_ch). subst c2.
    exists a, b, c. by rewrite Heq.
  - intros (a & b & c & Heq & Ha & Hb & Hc).
    exists a, (js "@" ++ b ++ js "." ++ c). split; [done|].
    split; [by apply Lang_some_Sym|].
    apply LSeq; [apply Lang_Sym; eexists; split; [done | by apply cls_ch]|].
    apply LSeq; [by apply Lang_some_Sym|].
    apply LSeq; [apply Lang_Sym; eexists; split; [done | by apply cls_ch]|].
    by apply Lang_some_Sym.
Qed.

Lemma email_field_verdict_witness :
  field_type sample_email = "email" ∧ field_value sample_email ≠ [] ∧
  ((validateField sample_email true).1 = true ↔
   ∃ a b c,
     field_value sample_email = a ++ js "@" ++ b ++ js "." ++ c ∧
     email_part a ∧ email_part b ∧ email_part c).
Proof.
  split; [reflexivity|]. split; [discriminate|].
  apply (email_field_verdict sample_email true); [reflexivity | discriminate].
Defined.

(** X9: for a field named [barcode] with a value, of a type other than
    [email] and [tel], the verdict is positive exactly when the value has
    four or more code units, all of them ASCII letters, digits or
    hyphens. *)
Theorem barcode_field_verdict (f : Field) (showError : bool) :
  field_type f ≠ "email" →
  field_type f ≠ "tel" →
  field_name f = "barcode" →
  field_value f ≠ [] →
  (validateField f showError).1 = true ↔
  (4 ≤ length (field_value f))%nat ∧
  Forall (λ c, cls barcode_class c = true) (field_value f).
Proof.
  intros Hne1 Hne2 Hname Hval. rewrite validateField_verdict. unfold verdict_of.
  rewrite Hname, (truthy_true _ Hval).
  rewrite (bool_decide_eq_false_2 _ Hne1), (bool_decide_eq_false_2 _ Hne2).
  rewrite (bool_decide_eq_true_2 ("barcode" = "barcode")) by done.
  cbn [andb]. unfold Pattern.test, barcodeRegex.
  cbn [lookaheads body forallb andb].
  by rewrite full_spec, Lang_at_least_Sym.
Qed.

Lemma barcode_field_verdict_witness :
  let f := {| field_type := "text"; field_name := "barcode";
              field_value := js "AB-1"; validity := false;
              required := false; field_classes := []; following := [] |} in
  field_type f ≠ "email" ∧ field_type f ≠ "tel" ∧
  field_name f = "barcode" ∧ field_value f ≠ [] ∧
  ((validateField f true).1 = true ↔
   (4 ≤ length (field_value f))%nat ∧
   Forall (λ c, cls barcode_class c = true) (field_value f)).
Proof.
  intros f. split; [discriminate|]. split; [discriminate|].
  split; [reflexivity|]. split; [discriminate|].
  apply (barcode_field_verdict f true);
    [discriminate | discriminate | reflexivity | discriminate].
Defined.

End SpecialValidation.

(** ** The submit listener *)

(** [validateField] writes classes and messages only. *)
Lemma validateField_attrs f showError :
  let g := (validateField f showError).2 in
  field_type g = field_type f ∧ field_name g = field_name f ∧
  field_value g = field_value f ∧ validity g = validity f ∧
  required g = required f.
Proof.
  assert (Hshow : ∀ m h, let g := showValidationError m h in
    field_type g = field_type h ∧ field_name g = field_name h ∧
    field_value g = field_value h ∧ validity g = validity h ∧
    required g = required h).
  { intros m h. unfold showValidationError, remove_feedback.
    by destruct (following h) as [|[] ?]. }
  assert (Hrm : ∀ h, let g := remove_feedback h in
    field_type g = field_type h ∧ field_name g = field_name h ∧
    field_value g = field_value h ∧ validity g = validity h ∧
    required g = required h).
  { intros h. unfold remove_feedback. by destruct (following h) as [|[] ?]. }
  destruct (validateField_shape f showError) as (g & Hg & ->).
  assert (Hgf : field_type g = field_type f ∧ field_name g = field_name f ∧
                field_value g = field_value f ∧ validity g = validity f ∧
                required g = required f).
  { destruct Hg as [-> | (m & _ & _ & ->)]; [done | apply Hshow]. }
  destruct Hgf as (<- & <- & <- & <- & <-).
  destruct showError; [|done].
  destruct (verdict_of f); [exact (Hrm (set_field_classes _ g))|].
  destruct (negb (classList_contains "is-invalid" (field_classes g)));
    [|done].
  cbv zeta. match goal with
            | |- context [if ?b then _ else _] => destruct b
            end; [exact (Hshow _ (set_field_classes _ g)) | done].
Qed.

(** The fields once the required ones have been validated. *)
Lemma password_field_after (fields : list Field) :
  list_find (λ f, field_type f = "password")
    ((λ f, if required f then (validateField f true).2 else f) <$> fields)
  = prod_map id (λ f, if required f then (validateField f true).2 else f)
      <$> list_find (λ f, field_type f = "password") fields.
Proof.
  rewrite list_find_fmap. f_equal. apply list_find_ext. intros f. simpl.
  destruct (required f); [|done].
  by destruct (validateField_attrs f true) as (-> & _).
Qed.

(** X10: when the listener lets the submission through, every required
    field has been marked [is-valid] and not [is-invalid], the other
    fields are as they were, nothing is focused, and the password field,
    if it holds a value, holds one that [validatePassword] accepts. *)
Theorem submission_goes_through (fields : list Field) :
  prevented (onFormSubmit fields) = false →
  fields_after (onFormSubmit fields)
  = (λ f, if required f then (validateField f true).2 else f) <$> fields ∧
  Forall (λ f, required f = true →
               classList_contains "is-valid" (field_classes f) = true ∧
               classList_contains "is-invalid" (field_classes f) = false)
         (fields_after (onFormSubmit fields)) ∧
  focused (onFormSubmit fields) = None ∧
  ∀ i f, list_find (λ f, field_type f = "password") fields = Some (i, f) →
         field_value f = [] ∨ validatePassword (field_value f) = true.
Proof.
  unfold onFormSubmit. rewrite password_field_after.
  set (validated := (λ f, if required f then (validateField f true).2 else f)).
  set (ok := forallb _ fields).
  assert (Hmarks : ok = true →
    Forall (λ f, required f = true →
                 classList_contains "is-valid" (field_classes f) = true ∧
                 classList_contains "is-invalid" (field_classes f) = false)
           (validated <$> fields)).
  { intros Hok. apply Forall_fmap, Forall_forall. intros f Hin. simpl.
    subst ok validated. rewrite forallb_forall in Hok.
    specialize (Hok f (proj1 (list_elem_of_In _ _) Hin)). simpl.
    destruct (required f) eqn:Hr; [|by rewrite Hr].
    destruct (validateField_attrs f true) as (_ & _ & _ & _ & Hreq).
    intros _. rewrite validateField_verdict in Hok.
    destruct (is_invalid_after_shown f) as [Hi Hv].
    rewrite Hi, Hok. split; [by apply Hv | done]. }
  destruct (list_find (λ f, field_type f = "password") fields)
    as [[i f]|] eqn:Hfind; cbn [fmap option_fmap option_map prod_map fst snd id].
  - assert (Hval : field_value (validated f) = field_value f).
    { subst validated. simpl. destruct (required f); [|done].
      by destruct (validateField_attrs f true) as (_ & _ & -> & _). }
    rewrite Hval.
    destruct (truthy (field_value f) && negb (validatePassword (field_value f)))
      eqn:Hpw; cbn [prevented fields_after focused negb]; [done|].
    intros Hok%negb_false_iff. rewrite Hok. split_and!; try done; [by apply Hmarks|].
    intros i' f' [= <- <-].
    apply andb_false_iff in Hpw as [Hpw | Hpw%negb_false_iff]; [|by right].
    left. by destruct (field_value f).
  - cbn [prevented fields_after focused]. intros Hok%negb_false_iff.
    rewrite Hok. split_and!; try done. by apply Hmarks.
Qed.

Lemma submission_goes_through_witness :
  let fields := [sample_address "a@b.c"; sample_text "";
                 sample_password "Ab1!Ab1!"] in
  prevented (onFormSubmit fields) = false ∧
  fields_after (onFormSubmit fields)
  = (λ f, if required f then (validateField f true).2 else f) <$> fields ∧
  Forall (λ f, required f = true →
               classList_contains "is-valid" (field_classes f) = true ∧
               classList_contains "is-invalid" (field_classes f) = false)
         (fields_after (onFormSubmit fields)) ∧
  focused (onFormSubmit fields) = None ∧
  ∀ i f, list_find (λ f, field_type f = "password") fields = Some (i, f) →
         field_value f = [] ∨ validatePassword (field_value f) = true.
Proof.
  intros fields. split; [reflexivity|].
  apply (submission_goes_through fields). reflexivity.
Defined.



(** ** More of the batch subsystem: set-up, count and dispatch *)

Lemma augment_twice (ts : list Table) :
  augment <$> (augment <$> ts) = augment <$> ts.
Proof.
  rewrite <- list_fmap_compose. apply list_fmap_ext.
  intros _ t _. apply augment_idem.
Qed.

(** X12: running the set-up of the batch operations a second time changes
    nothing: no second selection column, no second listener, no second
    control, and the controls keep their state. *)
Theorem setupBatchOperations_twice (p : Page) :
  setupBatchOperations (setupBatchOperations p) = setupBatchOperations p.
Proof.
  destruct p as [path tok ts cs].
  unfold setupBatchOperations, setupBatchActionButtons, setupBatchSelection.
  rewrite !updateBatchActionButtons_show.
  unfold forEach_batch_actions, total_checked, document_select_rows_checked,
    set_containers, set_tables.
  cbn [tables containers pathname csrf_token].
  rewrite augment_twice.
  set (n := length ((augment <$> ts) ≫= select_rows_checked)).
  f_equal. rewrite <- !list_fmap_compose. apply list_fmap_ext.
  intros _ c _. cbn [compose batch].
  destruct c as [[|b bs]]; cbn [batch fmap list_fmap].
  - by rewrite show_count_idem.
  - rewrite show_count_idem. do 2 f_equal.
    rewrite <- list_fmap_compose. apply list_fmap_ext.
    intros _ b' _. apply show_count_idem.
Qed.

Lemma length_row_selected_ids (r : Row) :
  length (row_selected_ids r)
  = length (filter (λ cb, checked cb = true) (row_checkboxes r)).
Proof. unfold row_selected_ids. by rewrite length_fmap. Qed.

Lemma length_table_rows_ids (t : Table) :
  length (tbody t ≫= row_selected_ids) = checked_count t.
Proof.
  unfold checked_count, select_rows_checked, select_rows.
  induction (tbody t) as [|r rs IH]; [done|].
  rewrite !bind_cons, filter_app, !length_app, IH, length_row_selected_ids.
  done.
Qed.

Lemma length_collected_ids (p : Page) :
  length (tables p ≫= λ t, tbody t ≫= row_selected_ids) = total_checked p.
Proof.
  rewrite total_checked_sum.
  induction (tables p) as [|t ts IH]; [done|].
  rewrite bind_cons, length_app, IH, length_table_rows_ids. done.
Qed.

(** X13: the number of ids that a dispatch collects never exceeds the
    number that the badge is given, the count of checked row checkboxes of
    the document. *)
Theorem dispatch_within_badge (p : Page) :
  (length (selectedIds p) ≤ total_checked p)%nat.
Proof.
  rewrite <- length_collected_ids. unfold selectedIds.
  apply length_filter.
Qed.

Lemma filter_all {A} (P : A → Prop) `{∀ x, Decision (P x)} (l : list A) :
  Forall P l → filter P l = l.
Proof.
  induction 1 as [|x l Hx _ IH]; [done|].
  by rewrite filter_cons, decide_True, IH.
Qed.

Lemma row_ids_nonempty (r : Row) :
  (∃ id, data_id r = Some id ∧ id ≠ "") →
  Forall (λ id, id ≠ "") (row_selected_ids r).
Proof.
  intros (id & Hid & Hne). unfold row_selected_ids. rewrite Hid.
  apply Forall_fmap, Forall_forall. by intros cb _.
Qed.

(** X14: on a page where every row carries a non-empty [data-id], the
    dispatch collects exactly as many ids as the badge counts. *)
Theorem badge_counts_dispatched_ids (p : Page) :
  rows_have_ids p →
  length (selectedIds p) = total_checked p.
Proof.
  intros Hrows. rewrite <- length_collected_ids. unfold selectedIds.
  f_equal. apply filter_all, Forall_bind.
  eapply Forall_impl; [exact Hrows|]. intros t Ht. cbv beta in Ht.
  apply Forall_bind. eapply Forall_impl; [exact Ht|].
  intros r Hr. by apply row_ids_nonempty.
Qed.

Lemma badge_counts_dispatched_ids_witness :
  rows_have_ids page_7_9 ∧
  length (selectedIds page_7_9) = total_checked page_7_9.
Proof.
  assert (H : rows_have_ids page_7_9).
  { unfold rows_have_ids. vm_compute tables.
    repeat constructor; eexists; (split; [reflexivity|discriminate]). }
  split; [exact H|]. apply (badge_counts_dispatched_ids page_7_9 H).
Defined.

Lemma actions_keys (path : string) (a : Action) :
  a ∈ actions path →
  action_key a ∈ ["exportSelected"; "deleteSelected"; "adjustPrice";
                  "adjustStock"].
Proof.
  unfold actions, splice_insert.
  destruct (includes path "/product/"); [|destruct (includes path "/inventory/")];
    cbn [take drop app]; intros H; rewrite !elem_of_cons, elem_of_nil in H;
    destruct_or!; subst; try done;
    cbn [action_key exportAction deleteAction adjustPriceAction
         adjustStockAction];
    rewrite !elem_of_cons; tauto.
Qed.

(** X15: once an id is selected, every entry of the injected menu, for
    whatever path, is dispatched to one of the four handlers with the
    collected ids, and an action key outside the four known ones only
    leaves a console warning. *)
Theorem menu_entries_dispatch (p : Page) (path : string) :
  selectedIds p ≠ [] →
  (∀ item, item ∈ ba_menu (new_batch_actions path) →
     clickMenuItem p item
     ∈ [exportSelectedItems p (selectedIds p);
        confirmDeleteSelected (selectedIds p);
        PriceModal (selectedIds p); StockModal (selectedIds p)]) ∧
  (∀ action,
     action ∉ ["exportSelected"; "deleteSelected"; "adjustPrice";
               "adjustStock"] →
     handleBatchAction p action
     = ConsoleWarn "Unknown batch operation:" action).
Proof.
  intros Hsel.
  assert (Hlen : (length (selectedIds p) =? 0)%nat = false).
  { apply Nat.eqb_neq. by destruct (selectedIds p). }
  split.
  - intros item Hitem. cbn [new_batch_actions ba_menu] in Hitem.
    apply list_elem_of_fmap in Hitem as (a & -> & Ha).
    apply actions_keys in Ha.
    unfold clickMenuItem, handleBatchAction. cbn [menu_item item_data_action].
    rewrite Hlen. rewrite !elem_of_cons, elem_of_nil in Ha.
    destruct Ha as [->|[->|[->|[->|[]]]]];
      repeat (case_bool_decide; try done); rewrite !elem_of_cons; tauto.
  - intros action Hout. unfold handleBatchAction. rewrite Hlen.
    rewrite !not_elem_of_cons in Hout.
    destruct Hout as (? & ? & ? & ? & _).
    by rewrite !bool_decide_eq_false_2.
Qed.

Lemma menu_entries_dispatch_witness :
  selectedIds page_7_9 ≠ [] ∧
  (∀ item, item ∈ ba_menu (new_batch_actions "/product/") →
     clickMenuItem page_7_9 item
     ∈ [exportSelectedItems page_7_9 (selectedIds page_7_9);
        confirmDeleteSelected (selectedIds page_7_9);
        PriceModal (selectedIds page_7_9);
        StockModal (selectedIds page_7_9)]) ∧
  (∀ action,
     action ∉ ["exportSelected"; "deleteSelected"; "adjustPrice";
               "adjustStock"] →
     handleBatchAction page_7_9 action
     = ConsoleWarn "Unknown batch operation:" action).
Proof.
  assert (H : selectedIds page_7_9 ≠ []) by (vm_compute; discriminate).
  split; [exact H|]. apply (menu_entries_dispatch page_7_9 "/product/" H).
Defined.

(** ** The four submissions *)

Lemma selected_ids_inputs (ids : list string) :
  filter (λ i, input_name i = "selected_ids") (hidden "selected_ids" <$> ids)
  = hidden "selected_ids" <$> ids.
Proof.
  apply filter_all, Forall_fmap, Forall_forall. by intros id _.
Qed.

Lemma selected_ids_values (ids : list string) :
  input_value <$> (hidden "selected_ids" <$> ids) = ids.
Proof.
  rewrite <- list_fmap_compose. rewrite <- (list_fmap_id ids) at 2.
  by apply list_fmap_ext.
Qed.

(** X16: each of the four submission functions (export, delete, price
    adjustment, stock adjustment) throws before anything is submitted when
    the page has no token input; otherwise it submits one hidden POST form
    to an address under the current path, whose first input is the token
    and whose [selected_ids] inputs carry the ids given, each once and in
    the order given. *)
Theorem submissions_carry_token_and_ids (p : Page) (ids : list string)
    (type value field notes : string) :
  Forall
    (λ o,
       match csrf_token p with
       | None => o.2 = TypeError
       | Some token =>
           ∃ f, o.2 = Submitted f ∧
                form_method f = "POST" ∧ form_display f = "none" ∧
                form_action f = pathname p +:+ o.1 ∧
                head (form_inputs f)
                = Some (hidden "csrfmiddlewaretoken" token) ∧
                submitted_token o.2 = Some token ∧
                submitted_ids o.2 = Some ids
       end)
    [("export/", exportSelectedItems p ids);
     ("batch-delete/", deleteSelectedItems p ids);
     ("batch-adjust-price/", submitPriceAdjustment p ids type value field);
     ("batch-adjust-stock/", submitStockAdjustment p ids type value notes)].
Proof.
  unfold exportSelectedItems, deleteSelectedItems, submitPriceAdjustment,
    submitStockAdjustment.
  destruct (csrf_token p) as [token|]; [|by repeat constructor].
  repeat constructor; cbn [fst snd]; eexists; (split; [reflexivity|]);
    cbn [form_method form_display form_action form_inputs head
         submitted_token submitted_ids];
    split_and!; try reflexivity;
    rewrite ?filter_cons; cbn [hidden input_name];
    repeat (case_decide; try done); cbn [head fmap option_fmap option_map
      input_value list_fmap];
    rewrite ?selected_ids_inputs, ?selected_ids_values; try done;
    fold (hidden "selected_ids");
    by rewrite ?selected_ids_inputs, ?selected_ids_values.
Qed.

(** ** The parameter dialogs *)

Lemma confirm_listeners_opened (idss : list (list string)) (d : Dialog) :
  dialog_present d = true →
  confirm_listeners (foldl (λ d ids, showAdjustPriceModal ids d) d idss)
  = confirm_listeners d ++ idss.
Proof.
  revert d. induction idss as [|ids idss IH]; intros d Hd; cbn [foldl].
  - by rewrite app_nil_r.
  - rewrite IH by done.
    cbn [showAdjustPriceModal dialog_present confirm_listeners].
    by rewrite Hd, <- app_assoc.
Qed.

(** X17: the confirm button of a parameter dialog keeps one listener per
    opening of the dialog, each with the ids of its opening.  After the
    dialog has been opened for the selections [idss], one after the other,
    a single click on the confirm button runs the submission once per
    opening, in the order of the openings, the earlier selections
    included. *)
Theorem confirm_runs_every_opening (p : Page) (idss : list (list string))
    (price : PriceForm) (stock : StockForm) :
  clickConfirmAdjustPrice p
    (foldl (λ d ids, showAdjustPriceModal ids d) no_dialog idss) price
  = (λ ids, confirmAdjustPrice_click p ids price) <$> idss ∧
  clickConfirmAdjustStock p
    (foldl (λ d ids, showAdjustStockModal ids d) no_dialog idss) stock
  = (λ ids, confirmAdjustStock_click p ids stock) <$> idss.
Proof.
  change showAdjustStockModal with showAdjustPriceModal.
  unfold clickConfirmAdjustPrice, clickConfirmAdjustStock.
  assert (Hd : confirm_listeners
                 (foldl (λ d ids, showAdjustPriceModal ids d) no_dialog idss)
               = idss).
  { destruct idss as [|ids idss]; [done|]. cbn [foldl].
    by rewrite confirm_listeners_opened. }
  by rewrite Hd.
Qed.

(** ** The selection invariant *)

(** X18: on a page loaded with tables that have no selection column yet,
    after the set-up and any sequence of clicks on header and row
    checkboxes, the select-all checkbox of every table that has row
    checkboxes is checked exactly when all of them are and indeterminate
    exactly when some but not all are, and every control is shown with
    the document-wide count when that count is positive and hidden when
    it is zero. *)
Theorem selection_stays_in_step (p0 : Page) (es : list Event) :
  Forall fresh_table (tables p0) →
  let p := run es (setupBatchOperations p0) in
  (∀ t, t ∈ tables p → select_rows t ≠ [] →
        ∃ h, selectAllCheckbox t = Some h ∧ header_in_step t h) ∧
  Forall (badge_in_step (total_checked p)) (document_batch_actions p).
Proof.
  intros Hf p. destruct (reachable_settled p0 es Hf) as [Htables Hbadges].
  split; [|exact Hbadges].
  intros t Ht Hrows. rewrite Forall_forall in Htables.
  destruct (Htables t Ht) as [[_ Hnone]|[_ Hh]]; [done|by apply Hh].
Qed.

Lemma selection_stays_in_step_witness :
  let p0 := server_page "/product/" [["7"; "9"]; ["3"]] in
  let es := [ClickRow 0 0 0; ClickSelectAll 1; ClickRow 0 1 0;
             ClickSelectAll 1] in
  Forall fresh_table (tables p0) ∧
  let p := run es (setupBatchOperations p0) in
  (∀ t, t ∈ tables p → select_rows t ≠ [] →
        ∃ h, selectAllCheckbox t = Some h ∧ header_in_step t h) ∧
  Forall (badge_in_step (total_checked p)) (document_batch_actions p).
Proof.
  intros p0 es.
  assert (H : Forall fresh_table (tables p0)).
  { subst p0. cbn [server_page tables fmap list_fmap].
    repeat constructor. }
  split; [exact H|]. apply (selection_stays_in_step p0 es H).
Defined.

(** ** The visibility toggle and the submit check *)

Lemma set_field_type_same (f : Field) :
  set_field_type (field_type f) f = f.
Proof. by destruct f. Qed.

Lemma onToggleClick_twice (f : Field) (b : ToggleButton) :
  field_type f = "password" →
  onToggleClick (onToggleClick (f, b))
  = (f, new_toggleButton).
Proof.
  intros Hty. unfold onToggleClick. cbn [fst snd set_field_type field_type].
  rewrite Hty. cbn [bool_decide decide_rel]. simpl.
  unfold new_toggleButton. f_equal.
  rewrite <- Hty at 1. destruct f; simpl in *; by subst.
Qed.

(** X19: the visibility toggle of a password field alternates.  After an
    even number of clicks the field is as it was, of type [password], and
    the button offers to show the password; after an odd number the field
    is of type [text], all else unchanged, and the button offers to hide
    it. *)
Theorem toggle_alternates (f : Field) (n : nat) :
  field_type f = "password" →
  Nat.iter n onToggleClick (f, new_toggleButton)
  = if Nat.even n then (f, new_toggleButton)
    else (set_field_type "text" f,
          {| toggle_icon := "bi bi-eye-slash";
             toggle_label := "Hide password" |}).
Proof.
  intros Hty.
  assert (H1 : onToggleClick (f, new_toggleButton)
               = (set_field_type "text" f,
                  {| toggle_icon := "bi bi-eye-slash";
                     toggle_label := "Hide password" |})).
  { unfold onToggleClick. cbn [fst]. by rewrite Hty. }
  induction n as [n IH] using lt_wf_ind.
  destruct n as [|[|n]]; [done|exact H1|].
  change (Nat.iter (S (S n)) onToggleClick (f, new_toggleButton))
    with (onToggleClick
            (onToggleClick (Nat.iter n onToggleClick (f, new_toggleButton)))).
  change (Nat.even (S (S n))) with (Nat.even n).
  rewrite (IH n) by lia.
  destruct (Nat.even n).
  - by rewrite onToggleClick_twice.
  - rewrite <- H1. by rewrite !onToggleClick_twice.
Qed.

Lemma toggle_alternates_witness :
  field_type (sample_password "Secret1!") = "password" ∧
  Nat.iter 3 onToggleClick (sample_password "Secret1!", new_toggleButton)
  = if Nat.even 3 then (sample_password "Secret1!", new_toggleButton)
    else (set_field_type "text" (sample_password "Secret1!"),
          {| toggle_icon := "bi bi-eye-slash";
             toggle_label := "Hide password" |}).
Proof.
  split; [reflexivity|].
  apply (toggle_alternates (sample_password "Secret1!") 3). reflexivity.
Defined.

Lemma verdict_of_shown (f : Field) (b : ToggleButton) :
  field_type f = "password" →
  verdict_of (onToggleClick (f, b)).1 = verdict_of f.
Proof.
  intros Hty. unfold onToggleClick, verdict_of.
  cbn [fst set_field_type field_type field_value field_name validity].
  by rewrite Hty.
Qed.

(** X20: a shown password is not checked on submission.  When the only
    password field of a form has been switched to [text] by its toggle
    button and every required field passes [validateField], the submit
    listener lets the form through, whatever the password is. *)
Theorem shown_password_skips_check (fields : list Field) (i : nat)
    (f : Field) (b : ToggleButton) :
  fields !! i = Some f →
  field_type f = "password" →
  (∀ j g, fields !! j = Some g → field_type g = "password" → j = i) →
  Forall (λ g, required g = true → verdict_of g = true) fields →
  prevented
    (onFormSubmit (alter (λ f, (onToggleClick (f, b)).1) i fields))
  = false.
Proof.
  intros Hi Hty Honly Hok.
  set (shown := λ f : Field, (onToggleClick (f, b)).1).
  assert (Hshown : ∀ g, field_type g = "password" →
            field_type (shown g) = "text" ∧
            required (shown g) = required g).
  { intros g Hg. subst shown. unfold onToggleClick.
    cbn [fst set_field_type field_type required]. by rewrite Hg. }
  assert (Hall : Forall (λ g, (required g = true → verdict_of g = true) ∧
                              field_type g ≠ "password")
                        (alter shown i fields)).
  { apply Forall_lookup. intros j g Hj.
    destruct (decide (j = i)) as [->|Hne].
    - rewrite list_lookup_alter_eq, Hi in Hj. injection Hj as <-.
      destruct (Hshown f Hty) as [Ht Hr]. split.
      + rewrite Hr. subst shown. cbv beta. rewrite verdict_of_shown by done.
        rewrite Forall_lookup in Hok. exact (Hok i f Hi).
      + by rewrite Ht.
    - rewrite list_lookup_alter_ne in Hj by done. split.
      + rewrite Forall_lookup in Hok. exact (Hok j g Hj).
      + intros Hg. by apply Hne, (Honly j g). }
  unfold onFormSubmit. rewrite password_field_after.
  assert (Hnone : list_find (λ f, field_type f = "password")
                    (alter shown i fields) = None).
  { apply list_find_None. eapply Forall_impl; [exact Hall|]. by intros g [_ ?]. }
  rewrite Hnone. cbn [fmap option_fmap option_map prevented].
  apply negb_false_iff, forallb_forall. intros g Hg.
  apply list_elem_of_In in Hg. rewrite Forall_forall in Hall.
  destruct (Hall g Hg) as [Hv _].
  destruct (required g); [|done].
  rewrite validateField_verdict. by apply Hv.
Qed.

Lemma shown_password_skips_check_witness :
  let fields := [sample_address "a@b.c"; sample_password "password"] in
  fields !! 1%nat = Some (sample_password "password") ∧
  prevented (onFormSubmit fields) = true ∧
  prevented
    (onFormSubmit
       (alter (λ f, (onToggleClick (f, new_toggleButton)).1) 1%nat fields))
  = false.
Proof.
  intros fields. split; [reflexivity|]. split; [by vm_compute|].
  apply (shown_password_skips_check fields 1 (sample_password "password")
           new_toggleButton).
  - reflexivity.
  - reflexivity.
  - intros [|[|j]] g Hj Hg; [|done|done].
    injection Hj as <-. discriminate Hg.
  - repeat constructor.
Defined.

(** ** Secondary confirmation *)

Lemma guard_marks (e : Element) :
  attribute_set (confirmation_added (guard e)) = true.
Proof.
  unfold guard.
  destruct (attribute_set (confirmation_added e)) eqn:E; [exact E|reflexivity].
Qed.

Lemma guard_marked (e : Element) :
  attribute_set (confirmation_added e) = true → guard e = e.
Proof. unfold guard. by intros ->. Qed.

(** X21: [addConfirmationForSensitiveActions] guards an element once.
    After a run every matched element carries the marker attribute, a
    second run over the same elements changes nothing, and a run adds a
    listener to exactly the elements that did not carry the marker. *)
Theorem confirmation_added_once (sensitiveButtons : list Element) :
  let guarded := addConfirmationForSensitiveActions sensitiveButtons in
  addConfirmationForSensitiveActions guarded = guarded ∧
  Forall (λ e, attribute_set (confirmation_added e) = true) guarded ∧
  Forall2
    (λ e e',
       length (click_listeners e')
       = if attribute_set (confirmation_added e)
         then length (click_listeners e)
         else S (length (click_listeners e)))
    sensitiveButtons guarded.
Proof.
  intros guarded. subst guarded. unfold addConfirmationForSensitiveActions.
  split_and!.
  - rewrite <- list_fmap_compose. apply list_fmap_ext.
    intros _ e _. cbn [compose]. apply guard_marked, guard_marks.
  - apply Forall_fmap, Forall_forall. intros e _. apply guard_marks.
  - apply Forall2_fmap_r, Forall_Forall2_diag, Forall_forall.
    intros e _. unfold compose, guard.
    destruct (attribute_set (confirmation_added e)); [done|].
    cbn [click_listeners]. rewrite length_app. simpl. lia.
Qed.

